(** * browser-chess: the rules engine of [chess.js]

    A shallow embedding of the [ChessGame] class: the 8x8 board of optional
    piece letters, the per-piece move generators, the check analysis, the
    legality filter, the move applier and the click handler that drives
    them.  The DOM side of the class (rendering, highlighting, the turn
    indicator) is left out, except for the text of the [game-status]
    element, which carries the terminal classification. *)

From Stdlib Require Import ZArith List Bool Lia.
Import ListNotations.
Open Scope Z_scope.

(** ** Pieces

    The source stores a piece as one letter: the letter names the kind
    ([p r n b q k]), its case the colour (upper case is white).  The board
    only ever holds the twelve letters of [INITIAL_BOARD] and the two
    promotion queens, so a letter is modelled as a kind together with a
    colour. *)

Inductive Color := White | Black.

Inductive Kind := Pawn | Rook | Knight | Bishop | Queen | King.

Record Piece := mkPiece { kind : Kind; color : Color }.

Definition Color_eqb (a b : Color) : bool :=
  match a, b with
  | White, White | Black, Black => true
  | _, _ => false
  end.

Definition Kind_eqb (a b : Kind) : bool :=
  match a, b with
  | Pawn, Pawn | Rook, Rook | Knight, Knight
  | Bishop, Bishop | Queen, Queen | King, King => true
  | _, _ => false
  end.

Definition Piece_eqb (p q : Piece) : bool :=
  Kind_eqb (kind p) (kind q) && Color_eqb (color p) (color q).

(** [piece === piece.toUpperCase()] *)
Definition isUpper (p : Piece) : bool :=
  match color p with White => true | Black => false end.

(** [piece === piece.toLowerCase()] *)
Definition isLower (p : Piece) : bool :=
  match color p with White => false | Black => true end.

(** [piece.toLowerCase()], the letter that names the kind *)
Definition toLowerCase (p : Piece) : Kind := kind p.

Definition opposite (c : Color) : Color :=
  match c with White => Black | Black => White end.

(** The colour an [isWhite] flag of the source stands for. *)
Definition colorOf (isWhite : bool) : Color :=
  if isWhite then White else Black.

(** ** The board *)

Definition Board := list (list (option Piece)).

Definition wP := Some (mkPiece Pawn White).
Definition wR := Some (mkPiece Rook White).
Definition wN := Some (mkPiece Knight White).
Definition wB := Some (mkPiece Bishop White).
Definition wQ := Some (mkPiece Queen White).
Definition wK := Some (mkPiece King White).
Definition bP := Some (mkPiece Pawn Black).
Definition bR := Some (mkPiece Rook Black).
Definition bN := Some (mkPiece Knight Black).
Definition bB := Some (mkPiece Bishop Black).
Definition bQ := Some (mkPiece Queen Black).
Definition bK := Some (mkPiece King Black).
Definition __ : option Piece := None.

Definition INITIAL_BOARD : Board :=
  [ [bR; bN; bB; bQ; bK; bB; bN; bR];
    [bP; bP; bP; bP; bP; bP; bP; bP];
    [__; __; __; __; __; __; __; __];
    [__; __; __; __; __; __; __; __];
    [__; __; __; __; __; __; __; __];
    [__; __; __; __; __; __; __; __];
    [wP; wP; wP; wP; wP; wP; wP; wP];
    [wR; wN; wB; wQ; wK; wB; wN; wR] ].

Definition isInBounds (row col : Z) : bool :=
  (0 <=? row) && (row <? 8) && (0 <=? col) && (col <? 8).

(** [this.board[row][col]].  The source reads a square only after
    [isInBounds] (or with loop indices below 8); outside the board the
    model answers [None], the falsy value of the source. *)
Definition cell (b : Board) (row col : Z) : option Piece :=
  if isInBounds row col
  then nth (Z.to_nat col) (nth (Z.to_nat row) b []) None
  else None.

Fixpoint updNth {A : Type} (n : nat) (f : A -> A) (l : list A) : list A :=
  match l, n with
  | [], _ => []
  | x :: t, O => f x :: t
  | x :: t, S n' => x :: updNth n' f t
  end.

(** [this.board[row][col] = v] *)
Definition setCell (b : Board) (row col : Z) (v : option Piece) : Board :=
  if isInBounds row col
  then updNth (Z.to_nat row) (updNth (Z.to_nat col) (fun _ => v)) b
  else b.

(** Eight rows of eight squares. *)
Definition wfBoard (b : Board) : Prop :=
  length b = 8%nat /\ Forall (fun r => length r = 8%nat) b.

(** The indices of the two nested [for] loops, in the order they run. *)
Definition range8 : list Z := [0; 1; 2; 3; 4; 5; 6; 7].

Definition allSquares : list (Z * Z) :=
  flat_map (fun r => map (fun c => (r, c)) range8) range8.

(** ** Moves *)

(** A move object: [{row, col}], and for a castling candidate also
    [isCastling: true] and [rookCol]. *)
Record Move := mkMove {
  row : Z;
  col : Z;
  isCastling : bool;
  rookCol : option Z
}.

Definition plain (r c : Z) : Move := mkMove r c false None.

Definition castle (r c rc : Z) : Move := mkMove r c true (Some rc).

(** [move.row === row && move.col === col] *)
Definition targets (r c : Z) (m : Move) : bool :=
  (row m =? r) && (col m =? c).

(** [!this.board[row][col]] *)
Definition isEmpty (b : Board) (r c : Z) : bool :=
  match cell b r c with
  | None => true
  | Some _ => false
  end.

Definition isOpponentPiece (b : Board) (r c : Z) (isWhite : bool) : bool :=
  match cell b r c with
  | None => false
  | Some piece => if isWhite then isLower piece else isUpper piece
  end.

(** ** Move generator *)

(** The generators read the piece on their own square first; the source
    calls them on occupied squares only (a [null] piece would throw on
    [toUpperCase]), and the model returns no move on an empty one. *)
Definition getPawnMoves (b : Board) (r c : Z) : list Move :=
  match cell b r c with
  | None => []
  | Some piece =>
      let isWhite := isUpper piece in
      let direction := if isWhite then -1 else 1 in
      let startRow := if isWhite then 6 else 1 in
      (if isInBounds (r + direction) c && isEmpty b (r + direction) c
       then plain (r + direction) c ::
            (if (r =? startRow) && isEmpty b (r + 2 * direction) c
             then [plain (r + 2 * direction) c]
             else [])
       else [])
      ++ flat_map
           (fun colOffset =>
              let newRow := r + direction in
              let newCol := c + colOffset in
              if isInBounds newRow newCol
                 && negb (isEmpty b newRow newCol)
                 && isOpponentPiece b newRow newCol isWhite
              then [plain newRow newCol]
              else [])
           [-1; 1]
  end.

(** The [while] loop of [getLinearMoves] for one direction.  [fuel] bounds
    the number of iterations; eight are enough on this board
    ([ray_fuel_enough] below). *)
Fixpoint ray (fuel : nat) (b : Board) (isWhite : bool)
         (newRow newCol rowDir colDir : Z) : list Move :=
  match fuel with
  | O => []
  | S fuel' =>
      if isInBounds newRow newCol then
        if isEmpty b newRow newCol then
          plain newRow newCol ::
          ray fuel' b isWhite (newRow + rowDir) (newCol + colDir) rowDir colDir
        else if isOpponentPiece b newRow newCol isWhite
             then [plain newRow newCol]
             else []
      else []
  end.

Definition getLinearMoves (b : Board) (r c : Z)
           (directions : list (Z * Z)) : list Move :=
  match cell b r c with
  | None => []
  | Some piece =>
      let isWhite := isUpper piece in
      flat_map
        (fun d => ray 8 b isWhite (r + fst d) (c + snd d) (fst d) (snd d))
        directions
  end.

Definition rookDirections : list (Z * Z) :=
  [(-1, 0); (1, 0); (0, -1); (0, 1)].

Definition bishopDirections : list (Z * Z) :=
  [(-1, -1); (-1, 1); (1, -1); (1, 1)].

Definition queenDirections : list (Z * Z) :=
  [(-1, 0); (1, 0); (0, -1); (0, 1);
   (-1, -1); (-1, 1); (1, -1); (1, 1)].

Definition getRookMoves (b : Board) (r c : Z) : list Move :=
  getLinearMoves b r c rookDirections.

Definition getBishopMoves (b : Board) (r c : Z) : list Move :=
  getLinearMoves b r c bishopDirections.

Definition getQueenMoves (b : Board) (r c : Z) : list Move :=
  getLinearMoves b r c queenDirections.

(** The body shared by [getKnightMoves], [getKingMoves] and
    [getBasicKingMoves]: one step per offset. *)
Definition offsetMoves (b : Board) (r c : Z)
           (offsets : list (Z * Z)) : list Move :=
  match cell b r c with
  | None => []
  | Some piece =>
      let isWhite := isUpper piece in
      flat_map
        (fun o =>
           let newRow := r + fst o in
           let newCol := c + snd o in
           if isInBounds newRow newCol
              && (isEmpty b newRow newCol
                  || isOpponentPiece b newRow newCol isWhite)
           then [plain newRow newCol]
           else [])
        offsets
  end.

Definition knightOffsets : list (Z * Z) :=
  [(-2, -1); (-2, 1); (-1, -2); (-1, 2);
   (1, -2); (1, 2); (2, -1); (2, 1)].

Definition kingOffsets : list (Z * Z) :=
  [(-1, -1); (-1, 0); (-1, 1);
   (0, -1); (0, 1);
   (1, -1); (1, 0); (1, 1)].

Definition getKnightMoves (b : Board) (r c : Z) : list Move :=
  offsetMoves b r c knightOffsets.

Definition getBasicKingMoves (b : Board) (r c : Z) : list Move :=
  offsetMoves b r c kingOffsets.

Definition getValidMovesWithoutCheckValidation (b : Board) (r c : Z)
  : list Move :=
  match cell b r c with
  | None => []
  | Some piece =>
      match toLowerCase piece with
      | Pawn => getPawnMoves b r c
      | Rook => getRookMoves b r c
      | Knight => getKnightMoves b r c
      | Bishop => getBishopMoves b r c
      | Queen => getQueenMoves b r c
      | King => getBasicKingMoves b r c
      end
  end.

(** ** Check analyzer *)

(** The test of the two attack sweeps:
    [(isWhite && piece === piece.toLowerCase()) ||
     (!isWhite && piece === piece.toUpperCase())]. *)
Definition isOpponentOf (isWhite : bool) (piece : Piece) : bool :=
  (isWhite && isLower piece) || (negb isWhite && isUpper piece).

(** One iteration of the attack sweep at square [(r, c)]. *)
Definition attacksFrom (b : Board) (isWhite : bool) (tr tc r c : Z) : bool :=
  match cell b r c with
  | None => false
  | Some piece =>
      isOpponentOf isWhite piece
      && existsb (targets tr tc) (getValidMovesWithoutCheckValidation b r c)
  end.

Definition isSquareUnderAttack (b : Board) (tr tc : Z) (isWhite : bool)
  : bool :=
  existsb (fun r => existsb (fun c => attacksFrom b isWhite tr tc r c) range8)
          range8.

(** The first loop of [isKingInCheck]: the first king of the colour in
    row-major order. *)
Definition isKingOf (isWhite : bool) (sq : option Piece) : bool :=
  match sq with
  | None => false
  | Some piece =>
      match toLowerCase piece with
      | King => (isWhite && isUpper piece) || (negb isWhite && isLower piece)
      | _ => false
      end
  end.

Definition findKing (b : Board) (isWhite : bool) : option (Z * Z) :=
  find (fun sq => isKingOf isWhite (cell b (fst sq) (snd sq))) allSquares.

Definition isKingInCheck (b : Board) (isWhite : bool) : bool :=
  match findKing b isWhite with
  | None => false
  | Some kingPos =>
      existsb
        (fun r =>
           existsb
             (fun c => attacksFrom b isWhite (fst kingPos) (snd kingPos) r c)
             range8)
        range8
  end.

(** ** Castling *)

Record HasMoved := mkHasMoved {
  whiteKing : bool;
  blackKing : bool;
  whiteRookLeft : bool;
  whiteRookRight : bool;
  blackRookLeft : bool;
  blackRookRight : bool
}.

(** [this.board[baseRow][c] && this.board[baseRow][c].toLowerCase() === 'r'] *)
Definition isRookLetter (sq : option Piece) : bool :=
  match sq with
  | None => false
  | Some piece => Kind_eqb (toLowerCase piece) Rook
  end.

Definition getCastlingMoves (b : Board) (hm : HasMoved) (r c : Z)
           (isWhite : bool) : list Move :=
  if isKingInCheck b isWhite then []
  else
    let kingMoved := if isWhite then whiteKing hm else blackKing hm in
    if kingMoved then []
    else
      let baseRow := if isWhite then 7 else 0 in
      let kingsideRookMoved :=
        if isWhite then whiteRookRight hm else blackRookRight hm in
      let queensideRookMoved :=
        if isWhite then whiteRookLeft hm else blackRookLeft hm in
      (if negb kingsideRookMoved
          && isEmpty b baseRow 5
          && isEmpty b baseRow 6
          && isRookLetter (cell b baseRow 7)
       then
         if negb (isSquareUnderAttack b baseRow 5 isWhite)
            && negb (isSquareUnderAttack b baseRow 6 isWhite)
         then [castle baseRow 6 7]
         else []
       else [])
      ++
      (if negb queensideRookMoved
          && isEmpty b baseRow 1
          && isEmpty b baseRow 2
          && isEmpty b baseRow 3
          && isRookLetter (cell b baseRow 0)
       then
         if negb (isSquareUnderAttack b baseRow 2 isWhite)
            && negb (isSquareUnderAttack b baseRow 3 isWhite)
         then [castle baseRow 2 0]
         else []
       else []).

Definition getKingMoves (b : Board) (hm : HasMoved) (r c : Z) : list Move :=
  match cell b r c with
  | None => []
  | Some piece =>
      offsetMoves b r c kingOffsets
      ++ getCastlingMoves b hm r c (isUpper piece)
  end.

(** ** Legality filter *)

(** [wouldBeInCheck] writes the move into [this.board], asks
    [isKingInCheck], and writes the two squares back.  [simulateMove] is
    the board between the two pairs of writes and [undoMove] the second
    pair; [undoMove_simulateMove] below shows that the board is the one the
    call started with, which is why [wouldBeInCheck] is a function of the
    board here. *)
Definition simulateMove (b : Board) (fromRow fromCol toRow toCol : Z)
           (piece : Piece) : Board :=
  setCell (setCell b toRow toCol (Some piece)) fromRow fromCol None.

Definition undoMove (b : Board) (fromRow fromCol toRow toCol : Z)
           (piece : Piece) (capturedPiece : option Piece) : Board :=
  setCell (setCell b fromRow fromCol (Some piece)) toRow toCol capturedPiece.

Definition wouldBeInCheck (b : Board) (fromRow fromCol toRow toCol : Z)
  : bool :=
  match cell b fromRow fromCol with
  | None => false
  | Some piece =>
      isKingInCheck (simulateMove b fromRow fromCol toRow toCol piece)
                    (isUpper piece)
  end.

(** The [switch] of [getValidMoves]: the candidates before the filter. *)
Definition candidateMoves (b : Board) (hm : HasMoved) (r c : Z)
  : list Move :=
  match cell b r c with
  | None => []
  | Some piece =>
      match toLowerCase piece with
      | Pawn => getPawnMoves b r c
      | Rook => getRookMoves b r c
      | Knight => getKnightMoves b r c
      | Bishop => getBishopMoves b r c
      | Queen => getQueenMoves b r c
      | King => getKingMoves b hm r c
      end
  end.

(** ** Game state *)

Record CapturedPieces := mkCaptured {
  white : list Piece;
  black : list Piece
}.

(** The text of the [game-status] element. *)
Inductive StatusText :=
| NoText
| CheckText
| CheckmateText (winner : Color)
| StalemateText.

Record ChessGame := mkGame {
  board : Board;
  currentTurn : Color;
  selectedSquare : option (Z * Z);
  validMoves : list Move;
  capturedPieces : CapturedPieces;
  gameOver : bool;
  hasMoved : HasMoved;
  gameStatus : StatusText
}.

(** The constructor, and [resetGame]. *)
Definition newGame : ChessGame :=
  {| board := INITIAL_BOARD;
     currentTurn := White;
     selectedSquare := None;
     validMoves := [];
     capturedPieces := mkCaptured [] [];
     gameOver := false;
     hasMoved := mkHasMoved false false false false false false;
     gameStatus := NoText |}.

Definition resetGame (g : ChessGame) : ChessGame := newGame.

Definition isPieceOwnedByCurrentPlayer (g : ChessGame) (r c : Z) : bool :=
  match cell (board g) r c with
  | None => false
  | Some piece =>
      (Color_eqb (currentTurn g) White && isUpper piece)
      || (Color_eqb (currentTurn g) Black && isLower piece)
  end.

Definition getValidMoves (g : ChessGame) (r c : Z) : list Move :=
  match cell (board g) r c with
  | None => []
  | Some _ =>
      filter (fun move =>
                negb (wouldBeInCheck (board g) r c (row move) (col move)))
             (candidateMoves (board g) (hasMoved g) r c)
  end.

(** ** Move applier *)

Definition withBoard (g : ChessGame) (b : Board) : ChessGame :=
  {| board := b;
     currentTurn := currentTurn g;
     selectedSquare := selectedSquare g;
     validMoves := validMoves g;
     capturedPieces := capturedPieces g;
     gameOver := gameOver g;
     hasMoved := hasMoved g;
     gameStatus := gameStatus g |}.

Definition withCaptured (g : ChessGame) (cp : CapturedPieces) : ChessGame :=
  {| board := board g;
     currentTurn := currentTurn g;
     selectedSquare := selectedSquare g;
     validMoves := validMoves g;
     capturedPieces := cp;
     gameOver := gameOver g;
     hasMoved := hasMoved g;
     gameStatus := gameStatus g |}.

Definition withHasMoved (g : ChessGame) (hm : HasMoved) : ChessGame :=
  {| board := board g;
     currentTurn := currentTurn g;
     selectedSquare := selectedSquare g;
     validMoves := validMoves g;
     capturedPieces := capturedPieces g;
     gameOver := gameOver g;
     hasMoved := hm;
     gameStatus := gameStatus g |}.

(** [this.capturedPieces[capturedColor].push(capturedPiece)] *)
Definition pushCaptured (cp : CapturedPieces) (capturedPiece : Piece)
  : CapturedPieces :=
  if isUpper capturedPiece
  then mkCaptured (white cp ++ [capturedPiece]) (black cp)
  else mkCaptured (white cp) (black cp ++ [capturedPiece]).

(** The castling branch of [movePiece].  The rook is read after the king
    has been written; a move object without [rookCol] does not occur with
    [isCastling] set, and is given no rook to relocate. *)
Definition castleBoard (b : Board) (fromRow fromCol toRow toCol : Z)
           (piece : Piece) (move : Move) : Board :=
  let b1 := setCell b toRow toCol (Some piece) in
  let b2 := setCell b1 fromRow fromCol None in
  match rookCol move with
  | None => b2
  | Some rookFromCol =>
      let rookToCol := if toCol =? 6 then 5 else 3 in
      let rook := cell b2 toRow rookFromCol in
      let b3 := setCell b2 toRow rookToCol rook in
      setCell b3 toRow rookFromCol None
  end.

(** The ordinary branch: relocate, then promote a pawn on the last rank. *)
Definition relocateBoard (b : Board) (fromRow fromCol toRow toCol : Z)
           (piece : Piece) : Board :=
  let b1 := setCell b toRow toCol (Some piece) in
  let b2 := setCell b1 fromRow fromCol None in
  match toLowerCase piece with
  | Pawn =>
      if (isUpper piece && (toRow =? 0)) || (isLower piece && (toRow =? 7))
      then setCell b2 toRow toCol
                   (Some (mkPiece Queen (if isUpper piece then White else Black)))
      else b2
  | _ => b2
  end.

(** The bookkeeping at the end of [movePiece]. *)
Definition trackMoved (hm : HasMoved) (piece : Piece) (fromCol : Z)
  : HasMoved :=
  let isWhite := isUpper piece in
  match toLowerCase piece with
  | King =>
      if isWhite
      then mkHasMoved true (blackKing hm) (whiteRookLeft hm)
                      (whiteRookRight hm) (blackRookLeft hm)
                      (blackRookRight hm)
      else mkHasMoved (whiteKing hm) true (whiteRookLeft hm)
                      (whiteRookRight hm) (blackRookLeft hm)
                      (blackRookRight hm)
  | Rook =>
      if isWhite
      then mkHasMoved (whiteKing hm) (blackKing hm)
                      ((fromCol =? 0) || whiteRookLeft hm)
                      ((fromCol =? 7) || whiteRookRight hm)
                      (blackRookLeft hm) (blackRookRight hm)
      else mkHasMoved (whiteKing hm) (blackKing hm)
                      (whiteRookLeft hm) (whiteRookRight hm)
                      ((fromCol =? 0) || blackRookLeft hm)
                      ((fromCol =? 7) || blackRookRight hm)
  | _ => hm
  end.

(** [movePiece].  On an empty origin square the source throws at
    [piece.toUpperCase()] before any write; the model leaves the game as
    it is. *)
Definition movePiece (g : ChessGame) (fromRow fromCol toRow toCol : Z)
           (move : Move) : ChessGame :=
  match cell (board g) fromRow fromCol with
  | None => g
  | Some piece =>
      let capturedPiece := cell (board g) toRow toCol in
      let g1 :=
        if isCastling move
        then withBoard g (castleBoard (board g) fromRow fromCol toRow toCol
                                      piece move)
        else
          let g0 :=
            match capturedPiece with
            | Some captured =>
                withCaptured g (pushCaptured (capturedPieces g) captured)
            | None => g
            end in
          withBoard g0 (relocateBoard (board g) fromRow fromCol toRow toCol
                                      piece)
      in
      withHasMoved g1 (trackMoved (hasMoved g1) piece fromCol)
  end.

(** ** Selection, turn switch and status *)

Definition selectSquare (g : ChessGame) (r c : Z) : ChessGame :=
  {| board := board g;
     currentTurn := currentTurn g;
     selectedSquare := Some (r, c);
     validMoves := getValidMoves g r c;
     capturedPieces := capturedPieces g;
     gameOver := gameOver g;
     hasMoved := hasMoved g;
     gameStatus := gameStatus g |}.

Definition clearSelection (g : ChessGame) : ChessGame :=
  {| board := board g;
     currentTurn := currentTurn g;
     selectedSquare := None;
     validMoves := [];
     capturedPieces := capturedPieces g;
     gameOver := gameOver g;
     hasMoved := hasMoved g;
     gameStatus := gameStatus g |}.

Definition endGame (g : ChessGame) (message : StatusText) : ChessGame :=
  {| board := board g;
     currentTurn := currentTurn g;
     selectedSquare := selectedSquare g;
     validMoves := validMoves g;
     capturedPieces := capturedPieces g;
     gameOver := true;
     hasMoved := hasMoved g;
     gameStatus := message |}.

Definition setStatus (g : ChessGame) (message : StatusText) : ChessGame :=
  {| board := board g;
     currentTurn := currentTurn g;
     selectedSquare := selectedSquare g;
     validMoves := validMoves g;
     capturedPieces := capturedPieces g;
     gameOver := gameOver g;
     hasMoved := hasMoved g;
     gameStatus := message |}.

(** The two nested loops of [hasAnyValidMoves], with their early
    [return true]. *)
Definition hasAnyValidMoves (g : ChessGame) : bool :=
  existsb
    (fun r =>
       existsb
         (fun c =>
            isPieceOwnedByCurrentPlayer g r c
            && (0 <? Z.of_nat (length (getValidMoves g r c))))
         range8)
    range8.

Definition checkGameStatus (g : ChessGame) : ChessGame :=
  let hasValidMoves := hasAnyValidMoves g in
  let inCheck := isKingInCheck (board g) (Color_eqb (currentTurn g) White) in
  if negb hasValidMoves then
    if inCheck
    then endGame g (CheckmateText
                      (if Color_eqb (currentTurn g) White
                       then Black else White))
    else endGame g StalemateText
  else if inCheck then setStatus g CheckText
  else setStatus g NoText.

Definition toggleTurn (g : ChessGame) : ChessGame :=
  {| board := board g;
     currentTurn :=
       if Color_eqb (currentTurn g) White then Black else White;
     selectedSquare := selectedSquare g;
     validMoves := validMoves g;
     capturedPieces := capturedPieces g;
     gameOver := gameOver g;
     hasMoved := hasMoved g;
     gameStatus := gameStatus g |}.

Definition switchTurn (g : ChessGame) : ChessGame :=
  checkGameStatus (toggleTurn g).

Definition handleSquareClick (g : ChessGame) (r c : Z) : ChessGame :=
  if gameOver g then g
  else
    match selectedSquare g with
    | Some (selRow, selCol) =>
        match find (targets r c) (validMoves g) with
        | Some move =>
            switchTurn (clearSelection (movePiece g selRow selCol r c move))
        | None =>
            if isPieceOwnedByCurrentPlayer g r c
            then selectSquare g r c
            else clearSelection g
        end
    | None =>
        if isPieceOwnedByCurrentPlayer g r c
        then selectSquare g r c
        else g
    end.

(** ** Reachable states

    The page delivers clicks on the 64 squares and on the reset button;
    nothing else changes a game. *)
Inductive reachable : ChessGame -> Prop :=
| reach_new : reachable newGame
| reach_click g r c :
    reachable g -> isInBounds r c = true ->
    reachable (handleSquareClick g r c)
| reach_reset g :
    reachable g -> reachable (resetGame g).

(** A run of clicks, for concrete games. *)
Definition clicks (g : ChessGame) (l : list (Z * Z)) : ChessGame :=
  fold_left (fun g sq => handleSquareClick g (fst sq) (snd sq)) l g.

(** The number of squares that hold [p]. *)
Definition countPiece (b : Board) (p : Piece) : nat :=
  length
    (filter (fun sq =>
               match cell b (fst sq) (snd sq) with
               | Some q => Piece_eqb q p
               | None => false
               end)
            allSquares).

(** ** Vocabulary of the statements *)

(** A destination the generators accept: on the board, and either empty
    or held by a piece of the other colour. *)
Definition okDest (b : Board) (isWhite : bool) (m : Move) : Prop :=
  m = plain (row m) (col m) /\
  isInBounds (row m) (col m) = true /\
  (isEmpty b (row m) (col m) = true \/
   isOpponentPiece b (row m) (col m) isWhite = true).

(** The four corner squares of the board. *)
Definition corner (r c : Z) : Prop := (r = 0 \/ r = 7) /\ (c = 0 \/ c = 7).

(** A direction of [getLinearMoves]: one step along a rank, a file or a
    diagonal. *)
Definition unitDir (dr dc : Z) : Prop :=
  -1 <= dr <= 1 /\ -1 <= dc <= 1 /\ (dr <> 0 \/ dc <> 0).

(** The square holds a king, of either colour. *)
Definition hasKing (sq : option Piece) : bool :=
  match sq with
  | None => false
  | Some piece => Kind_eqb (kind piece) King
  end.

(** [B'] differs from [B] only on squares that hold no king on either
    board, that hold no piece of the colour opposite to [w] in [B'], and
    that are not emptied except in a corner. *)
Definition covers (w : bool) (B B' : Board) : Prop :=
  forall r c,
    isInBounds r c = true ->
    cell B r c = cell B' r c \/
    (hasKing (cell B r c) = false /\
     hasKing (cell B' r c) = false /\
     (forall p, cell B' r c = Some p -> isOpponentOf w p = false) /\
     (cell B' r c = None -> corner r c)).

(** [baseRow] and the three flags [getCastlingMoves] picks by colour. *)
Definition baseRowOf (isWhite : bool) : Z := if isWhite then 7 else 0.

Definition kingMovedOf (hm : HasMoved) (isWhite : bool) : bool :=
  if isWhite then whiteKing hm else blackKing hm.

Definition kingsideRookMovedOf (hm : HasMoved) (isWhite : bool) : bool :=
  if isWhite then whiteRookRight hm else blackRookRight hm.

Definition queensideRookMovedOf (hm : HasMoved) (isWhite : bool) : bool :=
  if isWhite then whiteRookLeft hm else blackRookLeft hm.

(** What the code asks of a kingside candidate, read off its tests. *)
Definition kingsideGate (b : Board) (hm : HasMoved) (w : bool) : Prop :=
  isKingInCheck b w = false /\
  kingMovedOf hm w = false /\
  kingsideRookMovedOf hm w = false /\
  cell b (baseRowOf w) 5 = None /\
  cell b (baseRowOf w) 6 = None /\
  isRookLetter (cell b (baseRowOf w) 7) = true /\
  isSquareUnderAttack b (baseRowOf w) 5 w = false /\
  isSquareUnderAttack b (baseRowOf w) 6 w = false.

(** The same for the queenside candidate. *)
Definition queensideGate (b : Board) (hm : HasMoved) (w : bool) : Prop :=
  isKingInCheck b w = false /\
  kingMovedOf hm w = false /\
  queensideRookMovedOf hm w = false /\
  cell b (baseRowOf w) 1 = None /\
  cell b (baseRowOf w) 2 = None /\
  cell b (baseRowOf w) 3 = None /\
  isRookLetter (cell b (baseRowOf w) 0) = true /\
  isSquareUnderAttack b (baseRowOf w) 2 w = false /\
  isSquareUnderAttack b (baseRowOf w) 3 w = false.

(** Exactly one square holds a king of the colour [w]. *)
Definition oneKing (b : Board) (w : bool) : Prop :=
  exists kr kc,
    isKingOf w (cell b kr kc) = true /\
    forall r c, isKingOf w (cell b r c) = true -> (r, c) = (kr, kc).

(** [this.currentTurn === 'white'] *)
Definition turnIsWhite (g : ChessGame) : bool :=
  Color_eqb (currentTurn g) White.

(** The selection the click handler keeps: a square of the side to move,
    with the moves the query returned for it. *)
Definition selectionOk (g : ChessGame) : Prop :=
  match selectedSquare g with
  | Some (r, c) =>
      isPieceOwnedByCurrentPlayer g r c = true /\
      validMoves g = getValidMoves g r c
  | None => True
  end.

(** What every click preserves: the shape of the board, one king of each
    colour, the side that has just moved out of check, and a consistent
    selection. *)
Definition Inv (g : ChessGame) : Prop :=
  wfBoard (board g) /\
  oneKing (board g) true /\
  oneKing (board g) false /\
  isKingInCheck (board g) (negb (turnIsWhite g)) = false /\
  selectionOk g.

(** The side to move has no legal move on any of the 64 squares. *)
Definition noLegalMoves (g : ChessGame) : Prop :=
  forall r c,
    isInBounds r c = true ->
    isPieceOwnedByCurrentPlayer g r c = true ->
    getValidMoves g r c = [].

(** The capture list of one colour. *)
Definition capturedOf (c : Color) (cp : CapturedPieces) : list Piece :=
  match c with
  | White => white cp
  | Black => black cp
  end.

(** Every legal move of the side to move, with its origin square. *)
Definition allLegalMoves (g : ChessGame) : list ((Z * Z) * Move) :=
  flat_map
    (fun sq =>
       if isPieceOwnedByCurrentPlayer g (fst sq) (snd sq)
       then map (fun m => (sq, m)) (getValidMoves g (fst sq) (snd sq))
       else [])
    allSquares.

(** The legal moves whose origin holds a piece of kind [k]. *)
Definition legalMovesOfKind (g : ChessGame) (k : Kind)
  : list ((Z * Z) * Move) :=
  filter
    (fun sm =>
       match cell (board g) (fst (fst sm)) (snd (fst sm)) with
       | Some p => Kind_eqb (kind p) k
       | None => false
       end)
    (allLegalMoves g).

(** The states a game passes through after [g]: whatever the click
    handler, the move applier and the turn switch make of it.  [resetGame]
    starts another game and is not among them. *)
Inductive laterState (g : ChessGame) : ChessGame -> Prop :=
| later_here : laterState g g
| later_click g' r c :
    laterState g g' -> laterState g (handleSquareClick g' r c)
| later_move g' fromRow fromCol toRow toCol move :
    laterState g g' ->
    laterState g (movePiece g' fromRow fromCol toRow toCol move)
| later_switch g' :
    laterState g g' -> laterState g (switchTurn g').

(** A square that a pawn of the other side controls in the chess sense:
    the pawn stands one rank behind it, seen from the pawn's direction of
    travel, on a neighbouring file.  This is the reading of the castling
    rule, not a function of the source. *)
Definition pawnControls (b : Board) (r c : Z) (isWhite : bool) : bool :=
  let pawnRow := if isWhite then r - 1 else r + 1 in
  existsb
    (fun pc =>
       match cell b pawnRow pc with
       | Some p => Kind_eqb (kind p) Pawn && isOpponentOf isWhite p
       | None => false
       end)
    [c - 1; c + 1].

(** [isValidMove]: some stored valid move lands on the square. *)
Definition isValidMove (g : ChessGame) (r c : Z) : bool :=
  existsb (targets r c) (validMoves g).

(** The class [initializeBoard] gives a square:
    [(row + col) % 2 === 0 ? 'light' : 'dark']. *)
Definition isLightSquare (r c : Z) : bool := (r + c) mod 2 =? 0.

(** One for an occupied square, nothing for an empty one. *)
Definition occ (sq : option Piece) : nat :=
  match sq with
  | Some _ => 1%nat
  | None => 0%nat
  end.

(** A capture list holds pieces of the colour [c] only, and no king. *)
Definition capturedOk (c : Color) (l : list Piece) : Prop :=
  Forall (fun q => color q = c /\ kind q <> King) l.

(** The status text [checkGameStatus] would write for the position as
    it stands. *)
Definition positionStatus (g : ChessGame) : StatusText :=
  let inCheck := isKingInCheck (board g) (turnIsWhite g) in
  if hasAnyValidMoves g
  then if inCheck then CheckText else NoText
  else if inCheck then CheckmateText (opposite (currentTurn g))
       else StalemateText.

(** The number of occupied squares. *)
Definition countOccupied (b : Board) : nat :=
  length (filter (fun sq => negb (isEmpty b (fst sq) (snd sq))) allSquares).

(** Pieces on the board together with the pieces on the two capture
    lists. *)
Definition totalPieces (g : ChessGame) : nat :=
  (countOccupied (board g)
   + length (white (capturedPieces g))
   + length (black (capturedPieces g)))%nat.

(** Every has-moved flag set in [hm] is set in [hm']. *)
Definition flagsKept (hm hm' : HasMoved) : Prop :=
  (whiteKing hm = true -> whiteKing hm' = true) /\
  (blackKing hm = true -> blackKing hm' = true) /\
  (whiteRookLeft hm = true -> whiteRookLeft hm' = true) /\
  (whiteRookRight hm = true -> whiteRookRight hm' = true) /\
  (blackRookLeft hm = true -> blackRookLeft hm' = true) /\
  (blackRookRight hm = true -> blackRookRight hm' = true).

(** The row step of a pawn: [isWhite ? -1 : 1]. *)
Definition pawnDirection (p : Piece) : Z := if isUpper p then -1 else 1.

(** ** Concrete games *)

(** 1. e4 d5 2. Nf3 dxe4 3. g3 e3 4. Bg2 e2: a black pawn on e2, the white
    king and king's rook at home, f1 and g1 empty, White to move. *)
Definition pawnOnE2 : ChessGame :=
  clicks newGame
    [(6, 4); (4, 4);  (1, 3); (3, 3);
     (7, 6); (5, 5);  (3, 3); (4, 4);
     (6, 6); (5, 6);  (4, 4); (5, 4);
     (7, 5); (6, 6);  (5, 4); (6, 4)].

(** 1. e4 d5: the white pawn on e4 can take on d5. *)
Definition afterE4D5 : ChessGame :=
  clicks newGame [(6, 4); (4, 4);  (1, 3); (3, 3)].

(** A white pawn on a7 with a8 empty. *)
Definition promotionBoard : Board :=
  [ [__; __; __; __; bK; __; __; __];
    [wP; __; __; __; __; __; __; __];
    [__; __; __; __; __; __; __; __];
    [__; __; __; __; __; __; __; __];
    [__; __; __; __; __; __; __; __];
    [__; __; __; __; __; __; __; __];
    [__; __; __; __; __; __; __; __];
    [__; __; __; __; wK; __; __; __] ].

Definition promotionGame : ChessGame := withBoard newGame promotionBoard.

(** 1. f3 e5 2. g4 Qh4: the shortest checkmate. *)
Definition foolsMate : ChessGame :=
  clicks newGame
    [(6, 5); (5, 5);  (1, 4); (3, 4);
     (6, 6); (4, 6);  (0, 3); (4, 7)].

(** Kings and the two white rooks only, all on their home squares. *)
Definition rooksBoard : Board :=
  [ [__; __; __; __; bK; __; __; __];
    [__; __; __; __; __; __; __; __];
    [__; __; __; __; __; __; __; __];
    [__; __; __; __; __; __; __; __];
    [__; __; __; __; __; __; __; __];
    [__; __; __; __; __; __; __; __];
    [__; __; __; __; __; __; __; __];
    [wR; __; __; __; wK; __; __; wR] ].

Definition rooksGame : ChessGame := withBoard newGame rooksBoard.

(** * Properties *)

(** ** Board reads and writes *)

Lemma isInBounds_spec r c :
  isInBounds r c = true <-> 0 <= r < 8 /\ 0 <= c < 8.
Proof. unfold isInBounds. lia. Qed.

Lemma isInBounds_false r c :
  isInBounds r c = false <-> ~ (0 <= r < 8 /\ 0 <= c < 8).
Proof. unfold isInBounds. lia. Qed.

Lemma cell_out b r c : isInBounds r c = false -> cell b r c = None.
Proof. unfold cell. intros ->. reflexivity. Qed.

Lemma cell_Some_inb b r c p : cell b r c = Some p -> isInBounds r c = true.
Proof.
  unfold cell. destruct (isInBounds r c); [reflexivity | discriminate].
Qed.

Lemma length_updNth A (f : A -> A) n l : length (updNth n f l) = length l.
Proof.
  revert n. induction l as [|x t IH]; intros [|n]; simpl; auto.
Qed.

Lemma nth_updNth_same A (f : A -> A) d n l :
  (n < length l)%nat -> nth n (updNth n f l) d = f (nth n l d).
Proof.
  revert n. induction l as [|x t IH]; intros [|n] H; simpl in *;
    try lia; auto. apply IH. lia.
Qed.

Lemma nth_updNth_other A (f : A -> A) d n m l :
  n <> m -> nth m (updNth n f l) d = nth m l d.
Proof.
  revert n m. induction l as [|x t IH]; intros [|n] [|m] H; simpl;
    try congruence; auto.
Qed.

Lemma wfBoard_row b n :
  wfBoard b -> (n < 8)%nat -> length (nth n b []) = 8%nat.
Proof.
  intros [Hl Hr] Hn. rewrite Forall_forall in Hr. apply Hr.
  apply nth_In. lia.
Qed.

Lemma wfBoard_setCell b r c v : wfBoard b -> wfBoard (setCell b r c v).
Proof.
  intros [Hl Hr]. unfold setCell. destruct (isInBounds r c); [|split; auto].
  split; [rewrite length_updNth; exact Hl|].
  clear Hl. revert Hr. generalize (Z.to_nat r) as n.
  induction b as [|x t IH]; intros n Hr; destruct n; simpl; auto;
    inversion Hr; subst; constructor; auto.
  rewrite length_updNth. assumption.
Qed.

Lemma cell_setCell b r c v r' c' :
  wfBoard b ->
  cell (setCell b r c v) r' c' =
  if isInBounds r c && (r =? r') && (c =? c') then v else cell b r' c'.
Proof.
  intros Hwf. unfold setCell, cell.
  destruct (isInBounds r c) eqn:Hin; simpl; [|reflexivity].
  destruct (isInBounds r' c') eqn:Hin'.
  2:{ destruct ((r =? r') && (c =? c')) eqn:E; [|reflexivity].
      apply andb_prop in E. destruct E as [E1 E2].
      apply Z.eqb_eq in E1, E2. subst. congruence. }
  apply isInBounds_spec in Hin, Hin'.
  destruct (r =? r') eqn:Er; simpl.
  - apply Z.eqb_eq in Er. subst r'.
    rewrite nth_updNth_same by (destruct Hwf as [Hl _]; lia).
    destruct (c =? c') eqn:Ec.
    + apply Z.eqb_eq in Ec. subst c'.
      rewrite nth_updNth_same; [reflexivity|].
      rewrite wfBoard_row by (auto; lia). lia.
    + apply Z.eqb_neq in Ec. apply nth_updNth_other. lia.
  - apply Z.eqb_neq in Er. rewrite nth_updNth_other by lia. reflexivity.
Qed.

Lemma cell_setCell_same b r c v :
  wfBoard b -> isInBounds r c = true -> cell (setCell b r c v) r c = v.
Proof.
  intros Hwf Hin. rewrite cell_setCell by assumption.
  rewrite Hin, !Z.eqb_refl. reflexivity.
Qed.

Lemma cell_setCell_other b r c v r' c' :
  wfBoard b -> (r, c) <> (r', c') ->
  cell (setCell b r c v) r' c' = cell b r' c'.
Proof.
  intros Hwf Hne. rewrite cell_setCell by assumption.
  destruct (isInBounds r c && (r =? r') && (c =? c')) eqn:E; [|reflexivity].
  apply andb_prop in E. destruct E as [E E2]. apply andb_prop in E.
  destruct E as [_ E1]. apply Z.eqb_eq in E1, E2. subst. congruence.
Qed.

(** Two boards of the right shape that agree on every square are equal. *)
Lemma board_ext b b' :
  wfBoard b -> wfBoard b' ->
  (forall r c, isInBounds r c = true -> cell b r c = cell b' r c) ->
  b = b'.
Proof.
  intros Hwf Hwf' H.
  apply nth_ext with (d := []) (d' := []).
  - destruct Hwf, Hwf'. congruence.
  - intros n Hn. assert (Hn8 : (n < 8)%nat) by (destruct Hwf; lia).
    apply nth_ext with (d := None) (d' := None).
    + rewrite !wfBoard_row; auto.
    + intros m Hm. rewrite wfBoard_row in Hm by auto.
      specialize (H (Z.of_nat n) (Z.of_nat m)).
      unfold cell in H. rewrite !Nat2Z.id in H.
      assert (Hin : isInBounds (Z.of_nat n) (Z.of_nat m) = true)
        by (apply isInBounds_spec; lia).
      rewrite Hin in H. auto.
Qed.

(** The simulation of [wouldBeInCheck] is undone exactly: the query leaves
    the board as it found it. *)
Lemma undoMove_simulateMove b fromRow fromCol toRow toCol piece :
  wfBoard b ->
  cell b fromRow fromCol = Some piece ->
  undoMove (simulateMove b fromRow fromCol toRow toCol piece)
           fromRow fromCol toRow toCol piece (cell b toRow toCol) = b.
Proof.
  intros Hwf Hp. unfold undoMove, simulateMove.
  apply board_ext; auto using wfBoard_setCell.
  intros r c Hin.
  rewrite !cell_setCell by auto using wfBoard_setCell.
  destruct (isInBounds toRow toCol && (toRow =? r) && (toCol =? c)) eqn:Et.
  - apply andb_prop in Et. destruct Et as [Et E2]. apply andb_prop in Et.
    destruct Et as [_ E1]. apply Z.eqb_eq in E1, E2. subst. reflexivity.
  - destruct (isInBounds fromRow fromCol && (fromRow =? r) && (fromCol =? c))
      eqn:Ef; [|reflexivity].
    apply andb_prop in Ef. destruct Ef as [Ef E2]. apply andb_prop in Ef.
    destruct Ef as [_ E1]. apply Z.eqb_eq in E1, E2. subst. auto.
Qed.

(** ** The ray loop terminates within its fuel *)

Lemma ray_fuel_stable n :
  forall m b w r c dr dc,
    (n <= m)%nat ->
    (exists i, 0 <= i < Z.of_nat n /\
               isInBounds (r + i * dr) (c + i * dc) = false) ->
    ray m b w r c dr dc = ray n b w r c dr dc.
Proof.
  induction n as [|n IH]; intros m b w r c dr dc Hm [i [Hi Hout]].
  - lia.
  - destruct m as [|m]; [lia|]. simpl.
    destruct (isInBounds r c) eqn:Hin; [|reflexivity].
    destruct (isEmpty b r c); [|reflexivity].
    f_equal. apply IH; [lia|].
    assert (i <> 0).
    { intros ->. rewrite !Z.mul_0_l, !Z.add_0_r in Hout. congruence. }
    exists (i - 1). split; [lia|].
    replace (r + dr + (i - 1) * dr) with (r + i * dr) by ring.
    replace (c + dc + (i - 1) * dc) with (c + i * dc) by ring.
    exact Hout.
Qed.

(** From a square of the board, along any of the eight directions the
    source uses, the loop has left the board before the ninth iteration:
    more fuel changes nothing. *)
Lemma ray_fuel_enough m b w r c dr dc :
  isInBounds r c = true ->
  In (dr, dc) queenDirections ->
  (8 <= m)%nat ->
  ray m b w (r + dr) (c + dc) dr dc = ray 8 b w (r + dr) (c + dc) dr dc.
Proof.
  intros Hin Hd Hm. apply ray_fuel_stable; [exact Hm|].
  exists 7. split; [lia|].
  apply isInBounds_spec in Hin. apply isInBounds_false.
  simpl in Hd.
  repeat (destruct Hd as [Hd|Hd]; [inversion Hd; subst; lia|]).
  contradiction.
Qed.

(** ** Shape of the generated moves *)

Lemma okDest_plain b w r c :
  isInBounds r c = true ->
  isEmpty b r c = true \/ isOpponentPiece b r c w = true ->
  okDest b w (plain r c).
Proof. intros. repeat split; assumption. Qed.

Lemma ray_okDest n :
  forall b w r c dr dc m, In m (ray n b w r c dr dc) -> okDest b w m.
Proof.
  induction n as [|n IH]; intros b w r c dr dc m H; simpl in H; [tauto|].
  destruct (isInBounds r c) eqn:Hin; [|contradiction].
  destruct (isEmpty b r c) eqn:He.
  - destruct H as [<-|H]; [apply okDest_plain; auto | eauto].
  - destruct (isOpponentPiece b r c w) eqn:Ho; [|contradiction].
    destruct H as [<-|[]]. apply okDest_plain; auto.
Qed.

Lemma getLinearMoves_okDest b r c dirs p m :
  cell b r c = Some p ->
  In m (getLinearMoves b r c dirs) -> okDest b (isUpper p) m.
Proof.
  unfold getLinearMoves. intros -> H.
  apply in_flat_map in H. destruct H as [d [_ H]].
  eapply ray_okDest; eauto.
Qed.

Lemma offsetMoves_okDest b r c offs p m :
  cell b r c = Some p ->
  In m (offsetMoves b r c offs) -> okDest b (isUpper p) m.
Proof.
  unfold offsetMoves. intros -> H.
  apply in_flat_map in H. destruct H as [o [_ H]].
  destruct (isInBounds (r + fst o) (c + snd o)) eqn:Hin; [|contradiction].
  simpl in H.
  destruct (isEmpty b (r + fst o) (c + snd o)
            || isOpponentPiece b (r + fst o) (c + snd o) (isUpper p)) eqn:E;
    [|contradiction].
  destruct H as [<-|[]]. apply okDest_plain; auto.
  apply orb_prop in E. exact E.
Qed.

Lemma getPawnMoves_okDest b r c p m :
  cell b r c = Some p ->
  In m (getPawnMoves b r c) -> okDest b (isUpper p) m.
Proof.
  unfold getPawnMoves. intros -> H.
  set (dir := if isUpper p then -1 else 1) in *.
  set (start := if isUpper p then 6 else 1) in *.
  apply in_app_or in H. destruct H as [H|H].
  - destruct (isInBounds (r + dir) c) eqn:Hin; [|contradiction].
    destruct (isEmpty b (r + dir) c) eqn:He; [|contradiction].
    destruct H as [<-|H]; [apply okDest_plain; auto|].
    destruct (r =? start) eqn:Er; [|contradiction].
    destruct (isEmpty b (r + 2 * dir) c) eqn:He2; [|contradiction].
    destruct H as [<-|[]]. apply okDest_plain; auto.
    apply Z.eqb_eq in Er. apply isInBounds_spec in Hin.
    apply isInBounds_spec. subst dir start. destruct (isUpper p); lia.
  - apply in_flat_map in H. destruct H as [o [_ H]].
    destruct (isInBounds (r + dir) (c + o)) eqn:Hin; [|contradiction].
    destruct (isEmpty b (r + dir) (c + o)); [contradiction|].
    destruct (isOpponentPiece b (r + dir) (c + o) (isUpper p)) eqn:Ho;
      [|contradiction].
    destruct H as [<-|[]]. apply okDest_plain; auto.
Qed.

Lemma noCheck_okDest b r c p m :
  cell b r c = Some p ->
  In m (getValidMovesWithoutCheckValidation b r c) -> okDest b (isUpper p) m.
Proof.
  intros Hp. unfold getValidMovesWithoutCheckValidation. rewrite Hp.
  unfold getRookMoves, getBishopMoves, getQueenMoves, getKnightMoves,
    getBasicKingMoves.
  destruct (toLowerCase p);
    eauto using getPawnMoves_okDest, getLinearMoves_okDest,
      offsetMoves_okDest.
Qed.

(** ** Attacks only grow when blockers are taken away

    [B'] is [B] with some squares changed so that every square that is
    empty in [B'] was already empty in [B], unless it is a corner of the
    board.  No ray runs through a corner, so whatever reaches a target
    square in [B'] reaches it in [B] too. *)

Lemma queenDirections_unit dr dc :
  In (dr, dc) queenDirections -> unitDir dr dc.
Proof.
  simpl. intros H.
  repeat (destruct H as [H|H]; [inversion H; subst; unfold unitDir; lia|]).
  contradiction.
Qed.

Lemma existsb_targets_In r c l :
  existsb (targets r c) l = true <->
  exists m, In m l /\ row m = r /\ col m = c.
Proof.
  rewrite existsb_exists. unfold targets.
  split; intros [m [Hin H]]; exists m; split; auto; lia.
Qed.

Section AttackMono.

Local Arguments Z.mul : simpl never.
Local Arguments Z.add : simpl never.

Variables B B' : Board.

Hypothesis blockers :
  forall r c, isInBounds r c = true -> cell B' r c = None ->
              cell B r c = None \/ corner r c.

Variables tr tc : Z.

Hypothesis same_target : cell B tr tc = cell B' tr tc.

Lemma isEmpty_target : isEmpty B tr tc = isEmpty B' tr tc.
Proof. unfold isEmpty. rewrite same_target. reflexivity. Qed.

Lemma isOpponentPiece_target w :
  isOpponentPiece B tr tc w = isOpponentPiece B' tr tc w.
Proof. unfold isOpponentPiece. rewrite same_target. reflexivity. Qed.

Lemma ray_mono n :
  forall w r0 c0 dr dc,
    isInBounds r0 c0 = true -> unitDir dr dc ->
    existsb (targets tr tc) (ray n B' w (r0 + dr) (c0 + dc) dr dc) = true ->
    existsb (targets tr tc) (ray n B w (r0 + dr) (c0 + dc) dr dc) = true.
Proof.
  induction n as [|n IH]; intros w r0 c0 dr dc Hin0 Hd H; simpl in *;
    [discriminate|].
  destruct (isInBounds (r0 + dr) (c0 + dc)) eqn:Hin; [|discriminate].
  destruct (targets tr tc (plain (r0 + dr) (c0 + dc))) eqn:Ht.
  - (* this square is the target: it reads the same on both boards *)
    unfold targets in Ht. simpl in Ht.
    assert (r0 + dr = tr /\ c0 + dc = tc) as [Er Ec] by lia.
    rewrite Er, Ec in *.
    rewrite isEmpty_target, isOpponentPiece_target.
    destruct (isEmpty B' tr tc).
    + simpl. unfold targets. simpl. rewrite !Z.eqb_refl. reflexivity.
    + destruct (isOpponentPiece B' tr tc w); [|discriminate].
      simpl. unfold targets. simpl. rewrite !Z.eqb_refl. reflexivity.
  - destruct (isEmpty B' (r0 + dr) (c0 + dc)) eqn:He.
    + simpl in H. rewrite Ht in H. simpl in H.
      assert (Hc : cell B' (r0 + dr) (c0 + dc) = None).
      { unfold isEmpty in He.
        destruct (cell B' (r0 + dr) (c0 + dc)); [discriminate|reflexivity]. }
      destruct (blockers _ _ Hin Hc) as [Hb|Hcorner].
      * unfold isEmpty at 1. rewrite Hb. simpl. rewrite Ht. simpl.
        apply IH; assumption.
      * (* a corner: the next square is off the board *)
        exfalso. destruct n as [|n]; simpl in H; [discriminate|].
        assert (Hout : isInBounds (r0 + dr + dr) (c0 + dc + dc) = false).
        { apply isInBounds_false. apply isInBounds_spec in Hin0.
          unfold corner in Hcorner. unfold unitDir in Hd. lia. }
        rewrite Hout in H. discriminate.
    + destruct (isOpponentPiece B' (r0 + dr) (c0 + dc) w);
        simpl in H; [rewrite Ht in H|]; discriminate.
Qed.

Lemma getLinearMoves_mono r c dirs p :
  cell B r c = Some p -> cell B' r c = Some p ->
  (forall d, In d dirs -> In d queenDirections) ->
  existsb (targets tr tc) (getLinearMoves B' r c dirs) = true ->
  existsb (targets tr tc) (getLinearMoves B r c dirs) = true.
Proof.
  unfold getLinearMoves. intros Hp Hp' Hdirs H. rewrite Hp. rewrite Hp' in H.
  apply existsb_exists in H. destruct H as [m [Hm Ht]].
  apply in_flat_map in Hm. destruct Hm as [[dr dc] [Hd Hm]]. simpl in Hm.
  assert (Hray : existsb (targets tr tc)
                   (ray 8 B (isUpper p) (r + dr) (c + dc) dr dc) = true).
  { apply ray_mono.
    - eapply cell_Some_inb; eauto.
    - apply queenDirections_unit. auto.
    - apply existsb_exists. eauto. }
  apply existsb_exists in Hray. destruct Hray as [m' [Hm' Ht']].
  apply existsb_exists. exists m'. split; [|assumption].
  apply in_flat_map. exists (dr, dc). auto.
Qed.

Lemma offsetMoves_mono r c offs p :
  cell B r c = Some p -> cell B' r c = Some p ->
  existsb (targets tr tc) (offsetMoves B' r c offs) = true ->
  existsb (targets tr tc) (offsetMoves B r c offs) = true.
Proof.
  unfold offsetMoves. intros Hp Hp' H. rewrite Hp. rewrite Hp' in H.
  apply existsb_exists in H. destruct H as [m [Hm Ht]].
  apply in_flat_map in Hm. destruct Hm as [o [Ho Hm]].
  apply existsb_exists. exists m. split; [|assumption].
  apply in_flat_map. exists o. split; [assumption|].
  destruct (isInBounds (r + fst o) (c + snd o)); [|contradiction].
  simpl in *.
  destruct (isEmpty B' (r + fst o) (c + snd o)
            || isOpponentPiece B' (r + fst o) (c + snd o) (isUpper p)) eqn:E;
    [|contradiction].
  destruct Hm as [<-|[]].
  unfold targets in Ht. simpl in Ht.
  assert (r + fst o = tr /\ c + snd o = tc) as [Er Ec] by lia.
  rewrite Er, Ec in *.
  rewrite isEmpty_target, isOpponentPiece_target, E. left. reflexivity.
Qed.

Lemma getPawnMoves_mono r c p :
  cell B r c = Some p -> cell B' r c = Some p ->
  existsb (targets tr tc) (getPawnMoves B' r c) = true ->
  existsb (targets tr tc) (getPawnMoves B r c) = true.
Proof.
  unfold getPawnMoves. intros Hp Hp' H. rewrite Hp. rewrite Hp' in H.
  set (dir := if isUpper p then -1 else 1) in *.
  set (start := if isUpper p then 6 else 1) in *.
  apply existsb_exists in H. destruct H as [m [Hm Ht]].
  apply existsb_exists. exists m. split; [|assumption].
  apply in_or_app. apply in_app_or in Hm. destruct Hm as [Hm|Hm].
  - left.
    destruct (isInBounds (r + dir) c) eqn:Hin; [|contradiction].
    destruct (isEmpty B' (r + dir) c) eqn:He; [|contradiction].
    simpl in Hm. destruct Hm as [<-|Hm].
    + unfold targets in Ht. simpl in Ht.
      assert (r + dir = tr /\ c = tc) as [Er Ec] by lia.
      rewrite Er, Ec in *. rewrite isEmpty_target, He. left. reflexivity.
    + destruct (r =? start) eqn:Es; [|contradiction].
      destruct (isEmpty B' (r + 2 * dir) c) eqn:He2; [|contradiction].
      simpl in Hm. destruct Hm as [<-|[]].
      unfold targets in Ht. simpl in Ht.
      assert (r + 2 * dir = tr /\ c = tc) as [Er Ec] by lia.
      assert (Hmid : isEmpty B (r + dir) c = true).
      { unfold isEmpty in He |- *.
        destruct (cell B' (r + dir) c) eqn:Hc; [discriminate|].
        destruct (blockers _ _ Hin Hc) as [->|Hcorner]; [reflexivity|].
        exfalso. apply Z.eqb_eq in Es. unfold corner in Hcorner.
        subst dir start. destruct (isUpper p); lia. }
      rewrite Hmid. simpl. right.
      rewrite Er, Ec in *. rewrite isEmpty_target, He2. left. reflexivity.
  - right. apply in_flat_map in Hm. destruct Hm as [o [Ho Hm]].
    apply in_flat_map. exists o. split; [assumption|].
    destruct (isInBounds (r + dir) (c + o)); [|contradiction].
    destruct (isEmpty B' (r + dir) (c + o)) eqn:He; [contradiction|].
    destruct (isOpponentPiece B' (r + dir) (c + o) (isUpper p)) eqn:Eo;
      [|contradiction].
    simpl in Hm. destruct Hm as [<-|[]].
    unfold targets in Ht. simpl in Ht.
    assert (r + dir = tr /\ c + o = tc) as [Er Ec] by lia.
    rewrite Er, Ec in *.
    rewrite isEmpty_target, isOpponentPiece_target, He, Eo.
    left. reflexivity.
Qed.

Lemma noCheck_mono r c p :
  cell B r c = Some p -> cell B' r c = Some p ->
  existsb (targets tr tc) (getValidMovesWithoutCheckValidation B' r c)
  = true ->
  existsb (targets tr tc) (getValidMovesWithoutCheckValidation B r c)
  = true.
Proof.
  intros Hp Hp'. unfold getValidMovesWithoutCheckValidation.
  rewrite Hp, Hp'.
  unfold getRookMoves, getBishopMoves, getQueenMoves, getKnightMoves,
    getBasicKingMoves.
  destruct (toLowerCase p).
  - apply getPawnMoves_mono with (p := p); assumption.
  - apply getLinearMoves_mono with (p := p); auto. simpl. tauto.
  - apply offsetMoves_mono with (p := p); assumption.
  - apply getLinearMoves_mono with (p := p); auto. simpl. tauto.
  - apply getLinearMoves_mono with (p := p); auto.
  - apply offsetMoves_mono with (p := p); assumption.
Qed.

End AttackMono.

(** ** The attack sweep *)

Lemma range8_In r : In r range8 <-> 0 <= r < 8.
Proof. unfold range8. simpl. lia. Qed.

Lemma allSquares_In r c : In (r, c) allSquares <-> isInBounds r c = true.
Proof.
  unfold allSquares. rewrite in_flat_map, isInBounds_spec. split.
  - intros [r' [Hr H]]. apply in_map_iff in H. destruct H as [c' [E Hc]].
    inversion E; subst. apply range8_In in Hr, Hc. lia.
  - intros [Hr Hc]. exists r. split; [apply range8_In; lia|].
    apply in_map. apply range8_In. lia.
Qed.

Lemma sweep_true b w tr tc :
  isSquareUnderAttack b tr tc w = true <->
  exists r c, attacksFrom b w tr tc r c = true.
Proof.
  unfold isSquareUnderAttack. rewrite existsb_exists. split.
  - intros [r [_ H]]. apply existsb_exists in H. destruct H as [c [_ H]].
    eauto.
  - intros [r [c H]].
    assert (Hin : isInBounds r c = true).
    { unfold attacksFrom in H. destruct (cell b r c) eqn:E; [|discriminate].
      eapply cell_Some_inb; eauto. }
    apply isInBounds_spec in Hin.
    exists r. split; [apply range8_In; lia|].
    apply existsb_exists. exists c. split; [apply range8_In; lia|assumption].
Qed.

Lemma isKingInCheck_sweep b w :
  isKingInCheck b w =
  match findKing b w with
  | None => false
  | Some kingPos => isSquareUnderAttack b (fst kingPos) (snd kingPos) w
  end.
Proof. reflexivity. Qed.

Lemma find_pointwise A (f g : A -> bool) l :
  (forall x, f x = g x) -> find f l = find g l.
Proof.
  intros H. induction l as [|x t IH]; simpl; [reflexivity|].
  rewrite H, IH. reflexivity.
Qed.

Lemma findKing_Some b w kr kc :
  findKing b w = Some (kr, kc) -> isKingOf w (cell b kr kc) = true.
Proof.
  unfold findKing. intros H. apply find_some in H. tauto.
Qed.

Lemma isKingOf_hasKing w sq : hasKing sq = false -> isKingOf w sq = false.
Proof.
  unfold hasKing, isKingOf, toLowerCase. destruct sq as [p|]; auto.
  destruct (kind p); simpl; auto; discriminate.
Qed.

Lemma covers_isKingOf w B B' w' r c :
  covers w B B' -> isKingOf w' (cell B r c) = isKingOf w' (cell B' r c).
Proof.
  intros H. destruct (isInBounds r c) eqn:Hin.
  - destruct (H r c Hin) as [->|[H1 [H2 _]]]; [reflexivity|].
    rewrite !isKingOf_hasKing by assumption. reflexivity.
  - rewrite !cell_out by assumption. reflexivity.
Qed.

(** If the king of colour [w] is safe on [B], it is safe on [B']. *)
Lemma isKingInCheck_covers w B B' :
  covers w B B' ->
  isKingInCheck B w = false -> isKingInCheck B' w = false.
Proof.
  intros Hcov Hsafe.
  destruct (isKingInCheck B' w) eqn:Hcheck; [|reflexivity].
  rewrite <- Hsafe. symmetry.
  rewrite isKingInCheck_sweep in *.
  assert (Hk : findKing B w = findKing B' w).
  { unfold findKing. apply find_pointwise. intros sq.
    apply covers_isKingOf with (w := w). assumption. }
  rewrite Hk. destruct (findKing B' w) as [[kr kc]|] eqn:Hking;
    [|discriminate].
  simpl in *.
  apply findKing_Some in Hking.
  assert (Hkin : isInBounds kr kc = true).
  { destruct (cell B' kr kc) eqn:E; [|discriminate].
    eapply cell_Some_inb; eauto. }
  assert (Hsame : cell B kr kc = cell B' kr kc).
  { destruct (Hcov kr kc Hkin) as [E|[_ [E _]]]; [congruence|].
    apply (isKingOf_hasKing w) in E. congruence. }
  apply sweep_true in Hcheck. destruct Hcheck as [r [c Hatt]].
  apply sweep_true. exists r, c.
  unfold attacksFrom in *.
  destruct (cell B' r c) as [p|] eqn:Hp; [|discriminate].
  apply andb_prop in Hatt. destruct Hatt as [Hopp Hatt].
  assert (Hp' : cell B r c = Some p).
  { destruct (Hcov r c (cell_Some_inb _ _ _ _ Hp)) as [E|[_ [_ [E _]]]];
      [congruence|].
    specialize (E p Hp). congruence. }
  rewrite Hp', Hopp. simpl.
  apply noCheck_mono with (B' := B') (p := p); auto.
  intros r1 c1 Hin1 Hnone.
  destruct (Hcov r1 c1 Hin1) as [E|[_ [_ [_ E]]]]; [left; congruence|].
  right. auto.
Qed.

(** ** Castling candidates *)

Lemma isEmpty_true b r c : isEmpty b r c = true <-> cell b r c = None.
Proof. unfold isEmpty. destruct (cell b r c); split; congruence. Qed.

Lemma In_gated A (c1 c2 : bool) (x m : A) :
  In m (if c1 then (if c2 then [x] else []) else []) <->
  m = x /\ c1 = true /\ c2 = true.
Proof.
  destruct c1, c2; simpl; intuition (try discriminate; auto).
Qed.

Lemma getCastlingMoves_In b hm r c w m :
  In m (getCastlingMoves b hm r c w) <->
  (m = castle (baseRowOf w) 6 7 /\ kingsideGate b hm w) \/
  (m = castle (baseRowOf w) 2 0 /\ queensideGate b hm w).
Proof.
  unfold getCastlingMoves, kingsideGate, queensideGate.
  fold (baseRowOf w) (kingMovedOf hm w) (kingsideRookMovedOf hm w)
       (queensideRookMovedOf hm w).
  rewrite <- !isEmpty_true.
  destruct (isKingInCheck b w); [simpl; intuition discriminate|].
  destruct (kingMovedOf hm w); [simpl; intuition discriminate|].
  rewrite in_app_iff, !In_gated, !andb_true_iff, !negb_true_iff.
  tauto.
Qed.

Lemma isOpponentOf_false w p : isOpponentOf w p = false <-> isUpper p = w.
Proof.
  unfold isOpponentOf, isUpper, isLower.
  destruct w, (color p); simpl; split; congruence.
Qed.

Lemma isOpponentOf_true w p : isOpponentOf w p = true <-> isUpper p = negb w.
Proof.
  unfold isOpponentOf, isUpper, isLower.
  destruct w, (color p); simpl; split; congruence.
Qed.

Lemma isRookLetter_Some sq :
  isRookLetter sq = true <-> exists p, sq = Some p /\ kind p = Rook.
Proof.
  unfold isRookLetter, toLowerCase. destruct sq as [p|].
  - destruct (kind p) eqn:E; simpl; split;
      try discriminate; try (intros [q [Hq Hk]]; inversion Hq; congruence).
    intros _. eauto.
  - split; [discriminate | intros [p [H _]]; discriminate].
Qed.

Lemma baseRowOf_cases w : baseRowOf w = 0 \/ baseRowOf w = 7.
Proof. destruct w; simpl; auto. Qed.

(** A rook of the other colour on the kingside corner reaches the square
    next to it along the rank. *)
Lemma opponent_rook_attacks_kingside b w br p :
  br = 0 \/ br = 7 ->
  cell b br 7 = Some p -> kind p = Rook -> isOpponentOf w p = true ->
  cell b br 6 = None ->
  isSquareUnderAttack b br 6 w = true.
Proof.
  intros Hbr Hp Hk Hopp H6. apply sweep_true. exists br, 7.
  unfold attacksFrom. rewrite Hp, Hopp. simpl.
  unfold getValidMovesWithoutCheckValidation, toLowerCase.
  rewrite Hp, Hk. unfold getRookMoves, getLinearMoves. rewrite Hp.
  apply existsb_targets_In. exists (plain br 6). split; [|auto].
  apply in_flat_map. exists (0, -1). split; [simpl; tauto|].
  simpl. rewrite Z.add_0_r.
  replace (isInBounds br 6) with true
    by (symmetry; apply isInBounds_spec; lia).
  unfold isEmpty. rewrite H6. left. reflexivity.
Qed.

(** On the queenside the rook needs two steps to reach the king's
    destination. *)
Lemma opponent_rook_attacks_queenside b w br p :
  br = 0 \/ br = 7 ->
  cell b br 0 = Some p -> kind p = Rook -> isOpponentOf w p = true ->
  cell b br 1 = None -> cell b br 2 = None ->
  isSquareUnderAttack b br 2 w = true.
Proof.
  intros Hbr Hp Hk Hopp H1 H2. apply sweep_true. exists br, 0.
  unfold attacksFrom. rewrite Hp, Hopp. simpl.
  unfold getValidMovesWithoutCheckValidation, toLowerCase.
  rewrite Hp, Hk. unfold getRookMoves, getLinearMoves. rewrite Hp.
  apply existsb_targets_In. exists (plain br 2). split; [|auto].
  apply in_flat_map. exists (0, 1). split; [simpl; tauto|].
  simpl. rewrite !Z.add_0_r.
  replace (isInBounds br 1) with true
    by (symmetry; apply isInBounds_spec; lia).
  replace (isInBounds br 2) with true
    by (symmetry; apply isInBounds_spec; lia).
  unfold isEmpty. rewrite H1, H2. right. left. reflexivity.
Qed.

(** The rook a castling candidate names: it stands on the corner of the
    king's rank and has the king's colour. *)
Lemma castling_rook b hm r c w m :
  In m (getCastlingMoves b hm r c w) ->
  row m = baseRowOf w /\ isCastling m = true /\
  exists rc p,
    rookCol m = Some rc /\
    ((col m = 6 /\ rc = 7) \/ (col m = 2 /\ rc = 0)) /\
    cell b (baseRowOf w) rc = Some p /\
    kind p = Rook /\ isUpper p = w.
Proof.
  intros H. apply getCastlingMoves_In in H.
  destruct H as [[-> G]|[-> G]]; simpl; (split; [reflexivity|]);
    (split; [reflexivity|]).
  - destruct G as (_ & _ & _ & _ & H6 & Hr & _ & Ha).
    apply isRookLetter_Some in Hr. destruct Hr as [p [Hp Hk]].
    exists 7, p. repeat split; auto.
    destruct (isOpponentOf w p) eqn:Ho; [|apply isOpponentOf_false; auto].
    rewrite (opponent_rook_attacks_kingside b w _ p (baseRowOf_cases w)
               Hp Hk Ho H6) in Ha. discriminate.
  - destruct G as (_ & _ & _ & H1 & H2 & _ & Hr & Ha & _).
    apply isRookLetter_Some in Hr. destruct Hr as [p [Hp Hk]].
    exists 0, p. repeat split; auto.
    destruct (isOpponentOf w p) eqn:Ho; [|apply isOpponentOf_false; auto].
    rewrite (opponent_rook_attacks_queenside b w _ p (baseRowOf_cases w)
               Hp Hk Ho H1 H2) in Ha. discriminate.
Qed.

(** ** What the move applier writes *)

Lemma cell_setCell_inb b r c v r' c' :
  wfBoard b -> isInBounds r c = true ->
  cell (setCell b r c v) r' c' =
  if (r =? r') && (c =? c') then v else cell b r' c'.
Proof.
  intros Hwf Hin. rewrite cell_setCell by assumption. rewrite Hin.
  reflexivity.
Qed.

Lemma wfBoard_simulateMove b fr fc tr tc p :
  wfBoard b -> wfBoard (simulateMove b fr fc tr tc p).
Proof. unfold simulateMove. auto using wfBoard_setCell. Qed.

Lemma cell_simulateMove b fr fc tr tc p r c :
  wfBoard b -> isInBounds fr fc = true -> isInBounds tr tc = true ->
  cell (simulateMove b fr fc tr tc p) r c =
  if (fr =? r) && (fc =? c) then None
  else if (tr =? r) && (tc =? c) then Some p
       else cell b r c.
Proof.
  intros Hwf Hf Ht. unfold simulateMove.
  rewrite !cell_setCell_inb by auto using wfBoard_setCell. reflexivity.
Qed.

Lemma wfBoard_relocateBoard b fr fc tr tc p :
  wfBoard b -> wfBoard (relocateBoard b fr fc tr tc p).
Proof.
  intros Hwf. unfold relocateBoard.
  destruct (toLowerCase p); auto using wfBoard_setCell.
  destruct (isUpper p && (tr =? 0) || isLower p && (tr =? 7));
    auto using wfBoard_setCell.
Qed.

Lemma wfBoard_castleBoard b fr fc tr tc p mv :
  wfBoard b -> wfBoard (castleBoard b fr fc tr tc p mv).
Proof.
  intros Hwf. unfold castleBoard.
  destruct (rookCol mv); auto using wfBoard_setCell.
Qed.

Lemma board_movePiece g fr fc tr tc mv p :
  cell (board g) fr fc = Some p ->
  board (movePiece g fr fc tr tc mv) =
  if isCastling mv
  then castleBoard (board g) fr fc tr tc p mv
  else relocateBoard (board g) fr fc tr tc p.
Proof.
  unfold movePiece. intros ->.
  destruct (isCastling mv); [reflexivity|].
  destruct (cell (board g) tr tc); reflexivity.
Qed.

Lemma wfBoard_movePiece g fr fc tr tc mv :
  wfBoard (board g) -> wfBoard (board (movePiece g fr fc tr tc mv)).
Proof.
  intros Hwf. destruct (cell (board g) fr fc) as [p|] eqn:Hp.
  - rewrite (board_movePiece g fr fc tr tc mv p Hp).
    destruct (isCastling mv);
      auto using wfBoard_castleBoard, wfBoard_relocateBoard.
  - unfold movePiece. rewrite Hp. assumption.
Qed.

(** The candidates of a piece: ordinary destinations, and for a king the
    castling candidates. *)
Lemma candidateMoves_cases b hm r c p m :
  cell b r c = Some p ->
  In m (candidateMoves b hm r c) ->
  okDest b (isUpper p) m \/
  (kind p = King /\ In m (getCastlingMoves b hm r c (isUpper p))).
Proof.
  intros Hp. unfold candidateMoves, toLowerCase. rewrite Hp.
  unfold getRookMoves, getBishopMoves, getQueenMoves, getKnightMoves,
    getKingMoves.
  destruct (kind p) eqn:Hk; intros H;
    try (left;
         first [ eapply getPawnMoves_okDest; eassumption
               | eapply getLinearMoves_okDest; eassumption
               | eapply offsetMoves_okDest; eassumption ]).
  rewrite Hp in H. apply in_app_or in H. destruct H as [H|H].
  - left. eapply offsetMoves_okDest; eassumption.
  - right. auto.
Qed.

Lemma getValidMoves_In g r c p m :
  cell (board g) r c = Some p ->
  In m (getValidMoves g r c) <->
  In m (candidateMoves (board g) (hasMoved g) r c) /\
  isKingInCheck (simulateMove (board g) r c (row m) (col m) p) (isUpper p)
  = false.
Proof.
  intros Hp. unfold getValidMoves, wouldBeInCheck. rewrite Hp.
  rewrite filter_In, negb_true_iff. reflexivity.
Qed.

(** *** Promotion does not change what attacks the king *)

Lemma relocateBoard_covers b fr fc tr tc p :
  wfBoard b -> isInBounds fr fc = true -> isInBounds tr tc = true ->
  covers (isUpper p) (simulateMove b fr fc tr tc p)
         (relocateBoard b fr fc tr tc p).
Proof.
  intros Hwf Hf Ht r c Hin. unfold relocateBoard.
  fold (simulateMove b fr fc tr tc p).
  destruct (toLowerCase p) eqn:Hk; auto.
  destruct (isUpper p && (tr =? 0) || isLower p && (tr =? 7)); auto.
  rewrite cell_setCell_inb by auto using wfBoard_simulateMove.
  rewrite cell_simulateMove by assumption.
  unfold toLowerCase in Hk.
  destruct ((tr =? r) && (tc =? c)); simpl; [right|left; reflexivity].
  repeat split.
  - destruct ((fr =? r) && (fc =? c)); simpl; [reflexivity|].
    rewrite Hk. reflexivity.
  - intros q Hq. inversion Hq; subst. apply isOpponentOf_false.
    unfold isUpper. simpl. destruct (color p); reflexivity.
  - discriminate.
  - discriminate.
Qed.

(** *** Relocating the rook does not expose the king *)

Lemma and_eqb_true a b c d :
  (a =? b) && (c =? d) = true <-> a = b /\ c = d.
Proof. lia. Qed.

Lemma cell_castleBoard b fr fc tr tc p mv rc r c :
  wfBoard b -> isInBounds fr fc = true -> isInBounds tr tc = true ->
  rookCol mv = Some rc -> isInBounds tr rc = true ->
  cell (castleBoard b fr fc tr tc p mv) r c =
  if (tr =? r) && (rc =? c) then None
  else if (tr =? r) && ((if tc =? 6 then 5 else 3) =? c)
       then cell (simulateMove b fr fc tr tc p) tr rc
       else cell (simulateMove b fr fc tr tc p) r c.
Proof.
  intros Hwf Hf Ht Hrc Hr. unfold castleBoard.
  fold (simulateMove b fr fc tr tc p). rewrite Hrc.
  rewrite !cell_setCell_inb;
    auto using wfBoard_setCell, wfBoard_simulateMove.
  apply isInBounds_spec in Hr. apply isInBounds_spec.
  destruct (tc =? 6); lia.
Qed.

(** One side of the board: the king goes to column [kc], the rook from the
    corner column [rc] to column [rt]. *)
Lemma castle_side_covers b fr fc p q br kc rc rt mv :
  wfBoard b -> cell b fr fc = Some p -> kind p = King ->
  br = 0 \/ br = 7 -> rc = 0 \/ rc = 7 ->
  0 <= kc < 8 -> 0 <= rt < 8 -> kc <> rc -> kc <> rt -> rt <> rc ->
  rt = (if kc =? 6 then 5 else 3) ->
  cell b br rc = Some q -> kind q = Rook -> isUpper q = isUpper p ->
  cell b br rt = None ->
  rookCol mv = Some rc ->
  covers (isUpper p) (simulateMove b fr fc br kc p)
         (castleBoard b fr fc br kc p mv).
Proof.
  intros Hwf Hp Hk Hbr Hrc Hkc Hrt N1 N2 N3 Ert Hq Hqk Hqw Hempty Hmv.
  assert (Hf : isInBounds fr fc = true) by (eapply cell_Some_inb; eauto).
  assert (Ht : isInBounds br kc = true) by (apply isInBounds_spec; lia).
  assert (Hr : isInBounds br rc = true) by (apply isInBounds_spec; lia).
  assert (HBrc : cell (simulateMove b fr fc br kc p) br rc = Some q).
  { rewrite cell_simulateMove by assumption.
    destruct ((fr =? br) && (fc =? rc)) eqn:E.
    - apply and_eqb_true in E. destruct E; subst. congruence.
    - destruct ((br =? br) && (kc =? rc)) eqn:E'; [|assumption].
      apply and_eqb_true in E'. lia. }
  assert (HBrt : cell (simulateMove b fr fc br kc p) br rt = None).
  { rewrite cell_simulateMove by assumption.
    destruct ((fr =? br) && (fc =? rt)); [reflexivity|].
    destruct ((br =? br) && (kc =? rt)) eqn:E'; [|assumption].
    apply and_eqb_true in E'. lia. }
  intros r c Hin.
  rewrite (cell_castleBoard b fr fc br kc p mv rc r c Hwf Hf Ht Hmv Hr).
  rewrite <- Ert.
  destruct ((br =? r) && (rc =? c)) eqn:E1.
  - apply and_eqb_true in E1. destruct E1; subst r c. right.
    rewrite HBrc. simpl. rewrite Hqk.
    repeat split; try discriminate; assumption.
  - destruct ((br =? r) && (rt =? c)) eqn:E2; [|left; reflexivity].
    apply and_eqb_true in E2. destruct E2; subst r c. right.
    rewrite HBrt, HBrc. simpl. rewrite Hqk.
    repeat split; try discriminate.
    intros q' Hq'. inversion Hq'; subst. apply isOpponentOf_false.
    assumption.
Qed.

Lemma castleBoard_covers b hm fr fc p mv :
  wfBoard b -> cell b fr fc = Some p -> kind p = King ->
  In mv (getCastlingMoves b hm fr fc (isUpper p)) ->
  covers (isUpper p) (simulateMove b fr fc (row mv) (col mv) p)
         (castleBoard b fr fc (row mv) (col mv) p mv).
Proof.
  intros Hwf Hp Hk Hmv.
  destruct (castling_rook _ _ _ _ _ _ Hmv)
    as (Hrow & _ & rc & q & Hrc & Hside & Hq & Hqk & Hqw).
  apply getCastlingMoves_In in Hmv.
  pose proof (baseRowOf_cases (isUpper p)) as Hbr.
  rewrite Hrow.
  destruct Hmv as [[-> G]|[-> G]]; simpl in *;
    destruct Hside as [[? ?]|[? ?]]; try lia; subst rc.
  - destruct G as (_ & _ & _ & H5 & _).
    apply castle_side_covers with (q := q) (rc := 7) (rt := 5);
      auto; try lia.
  - destruct G as (_ & _ & _ & _ & _ & H3 & _).
    apply castle_side_covers with (q := q) (rc := 0) (rt := 3);
      auto; try lia.
Qed.

(** ** Self-check filtering, on any board of the right shape *)

Lemma okDest_not_castling b w m : okDest b w m -> isCastling m = false.
Proof. intros [-> _]. reflexivity. Qed.

Lemma move_keeps_king_safe g r c p mv :
  wfBoard (board g) ->
  cell (board g) r c = Some p ->
  In mv (getValidMoves g r c) ->
  isKingInCheck (board (movePiece g r c (row mv) (col mv) mv)) (isUpper p)
  = false.
Proof.
  intros Hwf Hp Hmv.
  apply (getValidMoves_In g r c p mv Hp) in Hmv. destruct Hmv as [Hcand Hsafe].
  rewrite (board_movePiece g r c (row mv) (col mv) mv p Hp).
  assert (Hf : isInBounds r c = true) by (eapply cell_Some_inb; eauto).
  destruct (candidateMoves_cases _ _ _ _ _ _ Hp Hcand) as [Hok|[Hk Hcastle]].
  - rewrite (okDest_not_castling _ _ _ Hok).
    eapply isKingInCheck_covers; [|exact Hsafe].
    apply relocateBoard_covers; auto. apply Hok.
  - destruct (castling_rook _ _ _ _ _ _ Hcastle) as (_ & -> & _).
    eapply isKingInCheck_covers; [|exact Hsafe].
    eapply castleBoard_covers; eauto.
Qed.

(** ** Counting kings *)

Lemma Piece_eqb_king w q :
  Piece_eqb q (mkPiece King (colorOf w)) = isKingOf w (Some q).
Proof.
  unfold Piece_eqb, isKingOf, toLowerCase, isUpper, isLower. simpl.
  destruct (kind q), (color q), w; reflexivity.
Qed.

Lemma isKingOf_inb w b r c :
  isKingOf w (cell b r c) = true -> isInBounds r c = true.
Proof.
  destruct (cell b r c) eqn:E; [|discriminate].
  intros _. eapply cell_Some_inb; eauto.
Qed.

Lemma NoDup_allSquares : NoDup allSquares.
Proof.
  unfold allSquares, range8. simpl.
  repeat (apply NoDup_cons;
          [simpl; intros H; repeat (destruct H as [H|H]; [discriminate H|]);
           exact H|]).
  apply NoDup_nil.
Qed.

Lemma filter_nil_iff A (f : A -> bool) l :
  filter f l = [] <-> forall x, In x l -> f x = false.
Proof.
  induction l as [|a t IH]; simpl; [tauto|].
  destruct (f a) eqn:E; split.
  - discriminate.
  - intros H. specialize (H a (or_introl eq_refl)). congruence.
  - intros H x [<-|Hx]; [assumption|]. apply IH; assumption.
  - intros H. apply IH. auto.
Qed.

Lemma filter_length_one A (f : A -> bool) l :
  NoDup l ->
  length (filter f l) = 1%nat <->
  exists x, In x l /\ f x = true /\
            forall y, In y l -> f y = true -> y = x.
Proof.
  induction 1 as [|a t Ha Hnd IH]; simpl.
  - split; [discriminate | intros [x [[] _]]].
  - destruct (f a) eqn:E; simpl.
    + split.
      * intros H. assert (Hnil : filter f t = [])
          by (destruct (filter f t); [reflexivity|discriminate]).
        exists a. repeat split; auto.
        intros y [<-|Hy] Hfy; [reflexivity|].
        rewrite filter_nil_iff in Hnil. rewrite Hnil in Hfy by assumption.
        discriminate.
      * intros [x [_ [_ Huniq]]].
        assert (Hnil : filter f t = []).
        { apply filter_nil_iff. intros y Hy.
          destruct (f y) eqn:Ey; [|reflexivity].
          assert (y = x) by auto. assert (a = x) by auto.
          subst. contradiction. }
        rewrite Hnil. reflexivity.
    + rewrite IH. split.
      * intros [x [Hx [Hfx Huniq]]]. exists x. repeat split; auto.
        intros y [<-|Hy] Hfy; [congruence|auto].
      * intros [x [[->|Hx] [Hfx Huniq]]]; [congruence|].
        exists x. repeat split; auto.
Qed.

Lemma countPiece_oneKing b w :
  countPiece b (mkPiece King (colorOf w)) = 1%nat <-> oneKing b w.
Proof.
  unfold countPiece, oneKing.
  rewrite filter_length_one by apply NoDup_allSquares.
  assert (E : forall r c,
             match cell b r c with
             | Some q => Piece_eqb q (mkPiece King (colorOf w))
             | None => false
             end = isKingOf w (cell b r c)).
  { intros r c. destruct (cell b r c); [apply Piece_eqb_king|reflexivity]. }
  split.
  - intros [[kr kc] [_ [Hk Huniq]]]. simpl in *. rewrite E in Hk.
    exists kr, kc. split; [assumption|]. intros r c H.
    apply (Huniq (r, c)).
    + apply allSquares_In. eapply isKingOf_inb; eauto.
    + simpl. rewrite E. assumption.
  - intros [kr [kc [Hk Huniq]]]. exists (kr, kc). simpl. rewrite E.
    repeat split; auto.
    + apply allSquares_In. eapply isKingOf_inb; eauto.
    + intros [r c] _. simpl. rewrite E. auto.
Qed.

Lemma oneKing_same w B B' :
  (forall r c, isKingOf w (cell B' r c) = isKingOf w (cell B r c)) ->
  oneKing B w -> oneKing B' w.
Proof.
  intros H [kr [kc [Hk Huniq]]]. exists kr, kc. split.
  - rewrite H. assumption.
  - intros r c Hrc. rewrite H in Hrc. auto.
Qed.

Lemma oneKing_moved w B B' fr fc tr tc :
  oneKing B w ->
  isKingOf w (cell B fr fc) = true ->
  isKingOf w (cell B' tr tc) = true ->
  (forall r c, (r, c) <> (tr, tc) ->
               isKingOf w (cell B' r c) = true ->
               isKingOf w (cell B r c) = true /\ (r, c) <> (fr, fc)) ->
  oneKing B' w.
Proof.
  intros [kr [kc [Hk Huniq]]] Hf Ht Hrest. exists tr, tc.
  split; [assumption|]. intros r c Hrc.
  destruct (Z.eq_dec r tr) as [->|Nr].
  - destruct (Z.eq_dec c tc) as [->|Nc]; [reflexivity|].
    destruct (Hrest tr c) as [H1 H2]; [congruence|assumption|].
    apply Huniq in H1. apply Huniq in Hf. congruence.
  - destruct (Hrest r c) as [H1 H2]; [congruence|assumption|].
    apply Huniq in H1. apply Huniq in Hf. congruence.
Qed.

Lemma findKing_oneKing b w r c :
  oneKing b w -> isKingOf w (cell b r c) = true ->
  findKing b w = Some (r, c).
Proof.
  intros [kr [kc [_ Huniq]]] H. unfold findKing.
  destruct (find (fun sq => isKingOf w (cell b (fst sq) (snd sq))) allSquares)
    as [[r' c']|] eqn:E.
  - apply find_some in E. destruct E as [_ E]. simpl in E.
    apply Huniq in E. apply Huniq in H. congruence.
  - eapply find_none with (x := (r, c)) in E.
    + simpl in E. congruence.
    + apply allSquares_In. eapply isKingOf_inb; eauto.
Qed.

(** ** Capturing a king would need the king to be in check *)

Lemma candidate_noCheck b hm r c m :
  In m (candidateMoves b hm r c) ->
  cell b (row m) (col m) <> None ->
  In m (getValidMovesWithoutCheckValidation b r c).
Proof.
  unfold candidateMoves, getValidMovesWithoutCheckValidation.
  destruct (cell b r c) as [p|] eqn:Hp; [|auto].
  destruct (toLowerCase p); auto.
  unfold getKingMoves, getBasicKingMoves. rewrite Hp.
  intros H Hocc. apply in_app_or in H. destruct H as [H|H]; [assumption|].
  exfalso. apply Hocc. apply getCastlingMoves_In in H.
  destruct H as [[-> G]|[-> G]]; simpl.
  - destruct G as (_ & _ & _ & _ & H6 & _). exact H6.
  - destruct G as (_ & _ & _ & _ & H2 & _). exact H2.
Qed.

Lemma capture_is_check b hm w r c p m :
  oneKing b w ->
  cell b r c = Some p -> isOpponentOf w p = true ->
  In m (candidateMoves b hm r c) ->
  isKingOf w (cell b (row m) (col m)) = true ->
  isKingInCheck b w = true.
Proof.
  intros Hone Hp Hopp Hm Hk.
  rewrite isKingInCheck_sweep.
  rewrite (findKing_oneKing b w (row m) (col m) Hone Hk). simpl.
  apply sweep_true. exists r, c. unfold attacksFrom.
  rewrite Hp, Hopp. simpl.
  apply existsb_targets_In. exists m. split; [|auto].
  eapply candidate_noCheck; eauto.
  destruct (cell b (row m) (col m)); [discriminate|discriminate].
Qed.

Lemma isOpponentPiece_Some b r c w :
  isOpponentPiece b r c w = true ->
  exists q, cell b r c = Some q /\ isUpper q = negb w.
Proof.
  unfold isOpponentPiece. destruct (cell b r c) as [q|]; [|discriminate].
  intros H. exists q. split; [reflexivity|].
  unfold isUpper, isLower in *. destruct w, (color q); simpl; congruence.
Qed.

(** A candidate never lands on its own origin. *)
Lemma candidate_dest b hm r c p m :
  cell b r c = Some p ->
  In m (candidateMoves b hm r c) ->
  isInBounds (row m) (col m) = true /\ (row m, col m) <> (r, c).
Proof.
  intros Hp Hm.
  destruct (candidateMoves_cases _ _ _ _ _ _ Hp Hm) as [Hok|[_ Hc]].
  - destruct Hok as (_ & Hin & Hd). split; [assumption|].
    intros E. inversion E as [[E1 E2]]. rewrite E1, E2 in Hd.
    destruct Hd as [Hd|Hd].
    + apply isEmpty_true in Hd. congruence.
    + apply isOpponentPiece_Some in Hd. destruct Hd as [q [Hq Hw]].
      rewrite Hp in Hq. inversion Hq; subst.
      destruct (isUpper q); discriminate.
  - apply getCastlingMoves_In in Hc.
    pose proof (baseRowOf_cases (isUpper p)) as Hbr.
    destruct Hc as [[-> G]|[-> G]]; simpl.
    + destruct G as (_ & _ & _ & _ & H6 & _).
      split; [apply isInBounds_spec; lia|]. congruence.
    + destruct G as (_ & _ & _ & _ & H2 & _).
      split; [apply isInBounds_spec; lia|]. congruence.
Qed.

(** While the other side's king is not attacked, no candidate lands on a
    king. *)
Lemma candidate_no_king b hm r c p m :
  oneKing b (negb (isUpper p)) ->
  isKingInCheck b (negb (isUpper p)) = false ->
  cell b r c = Some p ->
  In m (candidateMoves b hm r c) ->
  hasKing (cell b (row m) (col m)) = false.
Proof.
  intros Hone Hsafe Hp Hm.
  destruct (hasKing (cell b (row m) (col m))) eqn:Hk; [|reflexivity].
  assert (Hq : exists q, cell b (row m) (col m) = Some q /\ kind q = King).
  { unfold hasKing in Hk. destruct (cell b (row m) (col m)) as [q|];
      [|discriminate]. exists q. split; [reflexivity|].
    destruct (kind q); try discriminate. reflexivity. }
  destruct Hq as [q [Hq Hqk]].
  assert (Hqw : isUpper q = negb (isUpper p)).
  { destruct (candidateMoves_cases _ _ _ _ _ _ Hp Hm) as [Hok|[_ Hc]].
    - destruct Hok as (_ & _ & [Hd|Hd]).
      + apply isEmpty_true in Hd. congruence.
      + apply isOpponentPiece_Some in Hd. destruct Hd as [q' [Hq' Hw]].
        congruence.
    - exfalso. apply getCastlingMoves_In in Hc.
      destruct Hc as [[-> G]|[-> G]]; simpl in *.
      + destruct G as (_ & _ & _ & _ & H6 & _). congruence.
      + destruct G as (_ & _ & _ & _ & H2 & _). congruence. }
  rewrite <- Hsafe. symmetry.
  apply capture_is_check with (hm := hm) (r := r) (c := c) (p := p) (m := m);
    auto.
  - apply isOpponentOf_true. rewrite negb_involutive. reflexivity.
  - rewrite Hq. unfold isKingOf, toLowerCase. rewrite Hqk.
    unfold isUpper, isLower in *. destruct (color q), (color p);
      simpl in *; congruence.
Qed.

Lemma simulateMove_oneKing b fr fc tr tc p w :
  wfBoard b -> cell b fr fc = Some p ->
  isInBounds tr tc = true -> (tr, tc) <> (fr, fc) ->
  hasKing (cell b tr tc) = false ->
  oneKing b w -> oneKing (simulateMove b fr fc tr tc p) w.
Proof.
  intros Hwf Hp Ht Hne Hk Hone.
  assert (Hf : isInBounds fr fc = true) by (eapply cell_Some_inb; eauto).
  assert (Eft : (fr =? tr) && (fc =? tc) = false).
  { destruct ((fr =? tr) && (fc =? tc)) eqn:E; [|reflexivity].
    apply and_eqb_true in E. destruct E; subst. congruence. }
  destruct (isKingOf w (Some p)) eqn:Hpk.
  - apply oneKing_moved with (B := b) (fr := fr) (fc := fc)
                             (tr := tr) (tc := tc); auto.
    + rewrite Hp. assumption.
    + rewrite cell_simulateMove by assumption.
      rewrite Eft, !Z.eqb_refl. assumption.
    + intros r c Hrc. rewrite cell_simulateMove by assumption.
      destruct ((fr =? r) && (fc =? c)) eqn:E1; [discriminate|].
      destruct ((tr =? r) && (tc =? c)) eqn:E2.
      * apply and_eqb_true in E2. destruct E2; subst. congruence.
      * intros H. split; [assumption|]. intros E. inversion E; subst.
        rewrite !Z.eqb_refl in E1. discriminate.
  - apply oneKing_same with (B := b); [|assumption].
    intros r c. rewrite cell_simulateMove by assumption.
    destruct ((fr =? r) && (fc =? c)) eqn:E1.
    + apply and_eqb_true in E1. destruct E1; subst. rewrite Hp.
      symmetry. assumption.
    + destruct ((tr =? r) && (tc =? c)) eqn:E2; [|reflexivity].
      apply and_eqb_true in E2. destruct E2; subst.
      rewrite (isKingOf_hasKing w _ Hk). assumption.
Qed.

(** A move of the legal-move query keeps one king of each colour on the
    board, as long as the side that is not moving is not in check. *)
Lemma movePiece_oneKing g r c p mv w :
  wfBoard (board g) ->
  cell (board g) r c = Some p ->
  In mv (getValidMoves g r c) ->
  oneKing (board g) (negb (isUpper p)) ->
  isKingInCheck (board g) (negb (isUpper p)) = false ->
  oneKing (board g) w ->
  oneKing (board (movePiece g r c (row mv) (col mv) mv)) w.
Proof.
  intros Hwf Hp Hmv Hother Hsafe Hone.
  apply (getValidMoves_In g r c p mv Hp) in Hmv. destruct Hmv as [Hcand _].
  destruct (candidate_dest _ _ _ _ _ _ Hp Hcand) as [Ht Hne].
  pose proof (candidate_no_king _ _ _ _ _ _ Hother Hsafe Hp Hcand) as Hk.
  assert (Hf : isInBounds r c = true) by (eapply cell_Some_inb; eauto).
  assert (Hsim : oneKing (simulateMove (board g) r c (row mv) (col mv) p) w)
    by (apply simulateMove_oneKing; auto).
  rewrite (board_movePiece g r c (row mv) (col mv) mv p Hp).
  assert (Hcov : covers (isUpper p)
                   (simulateMove (board g) r c (row mv) (col mv) p)
                   (if isCastling mv
                    then castleBoard (board g) r c (row mv) (col mv) p mv
                    else relocateBoard (board g) r c (row mv) (col mv) p)).
  { destruct (candidateMoves_cases _ _ _ _ _ _ Hp Hcand) as [Hok|[Hpk Hc]].
    - rewrite (okDest_not_castling _ _ _ Hok).
      apply relocateBoard_covers; auto.
    - destruct (castling_rook _ _ _ _ _ _ Hc) as (_ & -> & _).
      eapply castleBoard_covers; eauto. }
  eapply oneKing_same; [|exact Hsim].
  intros r' c'. symmetry. eapply covers_isKingOf. exact Hcov.
Qed.

(** ** The invariant of reachable games *)

Lemma owned_spec g r c :
  isPieceOwnedByCurrentPlayer g r c = true <->
  exists p, cell (board g) r c = Some p /\ isUpper p = turnIsWhite g.
Proof.
  unfold isPieceOwnedByCurrentPlayer, turnIsWhite, isUpper, isLower.
  destruct (cell (board g) r c) as [p|].
  - split.
    + intros H. exists p. split; [reflexivity|].
      destruct (currentTurn g), (color p); simpl in *; congruence.
    + intros [q [Hq Hw]]. inversion Hq; subst.
      destruct (currentTurn g), (color q); simpl in *; congruence.
  - split; [discriminate | intros [p [H _]]; discriminate].
Qed.

Lemma checkGameStatus_frame g :
  board (checkGameStatus g) = board g /\
  currentTurn (checkGameStatus g) = currentTurn g /\
  selectedSquare (checkGameStatus g) = selectedSquare g /\
  validMoves (checkGameStatus g) = validMoves g /\
  capturedPieces (checkGameStatus g) = capturedPieces g /\
  hasMoved (checkGameStatus g) = hasMoved g.
Proof.
  unfold checkGameStatus.
  destruct (hasAnyValidMoves g),
    (isKingInCheck (board g) (Color_eqb (currentTurn g) White));
    simpl; auto 10.
Qed.

Lemma movePiece_frame g fr fc tr tc mv :
  currentTurn (movePiece g fr fc tr tc mv) = currentTurn g /\
  selectedSquare (movePiece g fr fc tr tc mv) = selectedSquare g /\
  validMoves (movePiece g fr fc tr tc mv) = validMoves g /\
  gameOver (movePiece g fr fc tr tc mv) = gameOver g /\
  gameStatus (movePiece g fr fc tr tc mv) = gameStatus g.
Proof.
  unfold movePiece.
  destruct (cell (board g) fr fc); [|auto].
  destruct (isCastling mv); [simpl; auto|].
  destruct (cell (board g) tr tc); simpl; auto.
Qed.

Lemma turnIsWhite_toggle g :
  turnIsWhite (toggleTurn g) = negb (turnIsWhite g).
Proof. unfold turnIsWhite. simpl. destruct (currentTurn g); reflexivity. Qed.

Lemma wfBoard_initial : wfBoard INITIAL_BOARD.
Proof. split; [reflexivity|]. repeat constructor. Qed.

Lemma Inv_newGame : Inv newGame.
Proof.
  unfold Inv. simpl.
  split; [apply wfBoard_initial|].
  split; [apply (countPiece_oneKing INITIAL_BOARD true); reflexivity|].
  split; [apply (countPiece_oneKing INITIAL_BOARD false); reflexivity|].
  split; [reflexivity | exact I].
Qed.

Lemma Inv_selectSquare g r c :
  Inv g -> isPieceOwnedByCurrentPlayer g r c = true ->
  Inv (selectSquare g r c).
Proof.
  intros (Hwf & Hw & Hb & Hsafe & _) Hown.
  unfold Inv, selectionOk. simpl. auto 10.
Qed.

Lemma Inv_clearSelection g : Inv g -> Inv (clearSelection g).
Proof.
  intros (Hwf & Hw & Hb & Hsafe & _). unfold Inv, selectionOk. simpl.
  auto 10.
Qed.

(** The commit branch of the click handler. *)
Lemma Inv_commit g selRow selCol r c move :
  Inv g ->
  selectedSquare g = Some (selRow, selCol) ->
  find (targets r c) (validMoves g) = Some move ->
  Inv (switchTurn (clearSelection (movePiece g selRow selCol r c move))).
Proof.
  intros (Hwf & Hw & Hb & Hsafe & Hsel) Hs Hfind.
  unfold selectionOk in Hsel. rewrite Hs in Hsel.
  destruct Hsel as [Hown Hvalid].
  apply find_some in Hfind. destruct Hfind as [Hin Ht].
  unfold targets in Ht.
  assert (row move = r /\ col move = c) as [<- <-] by lia.
  rewrite Hvalid in Hin.
  apply owned_spec in Hown. destruct Hown as [p [Hp Hpw]].
  assert (Hother : oneKing (board g) (negb (isUpper p)))
    by (rewrite Hpw; destruct (turnIsWhite g); assumption).
  rewrite <- Hpw in Hsafe.
  set (g1 := movePiece g selRow selCol (row move) (col move) move).
  destruct (checkGameStatus_frame (toggleTurn (clearSelection g1)))
    as (Eb & Et & Es & _).
  destruct (movePiece_frame g selRow selCol (row move) (col move) move)
    as (Et1 & _).
  unfold Inv, switchTurn, selectionOk, turnIsWhite.
  rewrite Eb, Et, Es. simpl. fold g1.
  split; [apply wfBoard_movePiece; assumption|].
  split; [apply movePiece_oneKing with (p := p); auto|].
  split; [apply movePiece_oneKing with (p := p); auto|].
  split; [|exact I].
  fold g1 in Et1. rewrite Et1.
  replace (negb (Color_eqb (if Color_eqb (currentTurn g) White
                            then Black else White) White))
    with (isUpper p)
    by (rewrite Hpw; unfold turnIsWhite; destruct (currentTurn g);
        reflexivity).
  apply move_keeps_king_safe; assumption.
Qed.

Lemma Inv_handleSquareClick g r c : Inv g -> Inv (handleSquareClick g r c).
Proof.
  intros HI. unfold handleSquareClick.
  destruct (gameOver g); [assumption|].
  destruct (selectedSquare g) as [[selRow selCol]|] eqn:Hs.
  - destruct (find (targets r c) (validMoves g)) as [move|] eqn:Hfind.
    + eapply Inv_commit; eauto.
    + destruct (isPieceOwnedByCurrentPlayer g r c) eqn:Hown.
      * apply Inv_selectSquare; assumption.
      * apply Inv_clearSelection; assumption.
  - destruct (isPieceOwnedByCurrentPlayer g r c) eqn:Hown.
    + apply Inv_selectSquare; assumption.
    + assumption.
Qed.

Lemma reachable_Inv g : reachable g -> Inv g.
Proof.
  induction 1.
  - apply Inv_newGame.
  - apply Inv_handleSquareClick. assumption.
  - apply Inv_newGame.
Qed.

(** ** Runs of clicks *)

Lemma reachable_clicks l :
  forall g,
    reachable g ->
    forallb (fun sq => isInBounds (fst sq) (snd sq)) l = true ->
    reachable (clicks g l).
Proof.
  unfold clicks. induction l as [|[r c] t IH]; intros g Hg Hl; simpl in *.
  - assumption.
  - apply andb_prop in Hl. destruct Hl as [Hrc Ht].
    apply IH; [|assumption]. apply reach_click; assumption.
Qed.

Lemma reachable_pawnOnE2 : reachable pawnOnE2.
Proof. apply reachable_clicks; [apply reach_new | reflexivity]. Qed.

Lemma reachable_afterE4D5 : reachable afterE4D5.
Proof. apply reachable_clicks; [apply reach_new | reflexivity]. Qed.

Lemma reachable_wf g : reachable g -> wfBoard (board g).
Proof. intros H. apply reachable_Inv in H. apply H. Qed.

(** * The claims *)

(** C1. In every reachable position and for every square, committing a
    move returned by [getValidMoves] with [movePiece] (the castling branch
    with its rook relocation included) leaves the mover's own king
    unattacked: [isKingInCheck] for the colour of the moved piece is
    false afterwards. *)
Theorem C1_legal_move_keeps_own_king_safe g r c mv :
  reachable g ->
  In mv (getValidMoves g r c) ->
  exists p,
    cell (board g) r c = Some p /\
    isKingInCheck (board (movePiece g r c (row mv) (col mv) mv)) (isUpper p)
    = false.
Proof.
  intros Hreach Hmv.
  destruct (cell (board g) r c) as [p|] eqn:Hp.
  - exists p. split; [reflexivity|].
    apply move_keeps_king_safe; auto using reachable_wf.
  - unfold getValidMoves in Hmv. rewrite Hp in Hmv. contradiction.
Qed.

(** The castling move of the white king in [pawnOnE2]. *)
Lemma C1_witness :
  exists p,
    cell (board pawnOnE2) 7 4 = Some p /\
    isKingInCheck (board (movePiece pawnOnE2 7 4 7 6 (castle 7 6 7)))
                  (isUpper p) = false.
Proof.
  apply (C1_legal_move_keeps_own_king_safe pawnOnE2 7 4 (castle 7 6 7)).
  - exact reachable_pawnOnE2.
  - vm_compute. right. left. reflexivity.
Defined.

(** C2 (the code departs from the claim).  What [getCastlingMoves] tests
    is [kingsideGate] and [queensideGate] ([getCastlingMoves_In]); its
    attack test is the opponent's move lists, and a pawn's move list holds
    a diagonal step only onto an occupied square.  In the reachable game
    [pawnOnE2] the black pawn on e2 controls the empty square f1 that the
    white king crosses, the sweep does not report f1 as attacked, and the
    kingside candidate is generated and passes the legality filter. *)
Theorem C2_castling_through_pawn_control :
  reachable pawnOnE2 /\
  cell (board pawnOnE2) 7 4 = wK /\
  cell (board pawnOnE2) 6 4 = bP /\
  cell (board pawnOnE2) 7 5 = None /\
  pawnControls (board pawnOnE2) 7 5 true = true /\
  isSquareUnderAttack (board pawnOnE2) 7 5 true = false /\
  In (castle 7 6 7)
     (getCastlingMoves (board pawnOnE2) (hasMoved pawnOnE2) 7 4 true) /\
  In (castle 7 6 7) (getValidMoves pawnOnE2 7 4).
Proof.
  split; [exact reachable_pawnOnE2|].
  repeat (split; [vm_compute; reflexivity|]).
  split; vm_compute; auto.
Qed.

(** C3, against the claim as stated: in the initial position, with White
    to move, the query answers two moves for the black pawn on a7. *)
Lemma C3_counterexample :
  currentTurn newGame = White /\
  cell (board newGame) 1 0 = bP /\
  isPieceOwnedByCurrentPlayer newGame 1 0 = false /\
  getValidMoves newGame 1 0 = [plain 2 0; plain 3 0] /\
  getValidMoves newGame 1 0 <> [].
Proof.
  repeat (split; [vm_compute; reflexivity|]).
  vm_compute. discriminate.
Qed.

(** C3, amended.  [getValidMoves] returns no move for an unoccupied
    square.  It does not look at the side to move; the ownership test sits
    in the click handler, which does not select a square the side to move
    does not own: with nothing selected, a click on such a square leaves
    the game, and so its list of valid moves, as it was. *)
Theorem C3_empty_square_and_ownership_gate g r c :
  isInBounds r c = true ->
  (cell (board g) r c = None -> getValidMoves g r c = []) /\
  (isPieceOwnedByCurrentPlayer g r c = false ->
   selectedSquare g = None ->
   handleSquareClick g r c = g).
Proof.
  intros _. split.
  - intros H. unfold getValidMoves. rewrite H. reflexivity.
  - intros Hown Hsel. unfold handleSquareClick.
    rewrite Hsel, Hown. destruct (gameOver g); reflexivity.
Qed.

Lemma C3_witness :
  getValidMoves newGame 3 3 = [] /\ handleSquareClick newGame 1 0 = newGame.
Proof.
  split.
  - apply (proj1 (C3_empty_square_and_ownership_gate newGame 3 3 eq_refl)).
    reflexivity.
  - apply (proj2 (C3_empty_square_and_ownership_gate newGame 1 0 eq_refl));
      reflexivity.
Defined.

(** ** Status evaluation *)

Lemma existsb_false_iff A (f : A -> bool) l :
  existsb f l = false <-> forall x, In x l -> f x = false.
Proof.
  induction l as [|a t IH]; simpl; [tauto|].
  rewrite orb_false_iff, IH. split.
  - intros [Ha Ht] x [<-|Hx]; auto.
  - intros H. split; auto.
Qed.

Lemma hasAnyValidMoves_false g :
  hasAnyValidMoves g = false <-> noLegalMoves g.
Proof.
  unfold hasAnyValidMoves, noLegalMoves. rewrite existsb_false_iff. split.
  - intros H r c Hin Hown. apply isInBounds_spec in Hin.
    assert (Hr : In r range8) by (apply range8_In; lia).
    specialize (H r Hr). rewrite existsb_false_iff in H.
    assert (Hc : In c range8) by (apply range8_In; lia).
    specialize (H c Hc). rewrite Hown in H. simpl in H.
    destruct (getValidMoves g r c); [reflexivity|].
    exfalso. apply Z.ltb_ge in H. simpl length in H. lia.
  - intros H r Hr. apply existsb_false_iff. intros c Hc.
    apply range8_In in Hr, Hc.
    destruct (isPieceOwnedByCurrentPlayer g r c) eqn:Hown; [|reflexivity].
    rewrite H; [reflexivity| |assumption]. apply isInBounds_spec. lia.
Qed.

(** C4. After a committed move the turn is switched and the status is
    evaluated for the new side to move [g]: checkmate (won by the other
    colour, game over) exactly when that side has no legal move on any of
    the 64 squares and its king is attacked; stalemate (game over) exactly
    when it has no legal move and its king is not attacked; otherwise the
    game goes on as it was, with the check text exactly when the king is
    attacked. *)
Theorem C4_status_classification g0 :
  let g := toggleTurn g0 in
  let g' := switchTurn g0 in
  let inCheck := isKingInCheck (board g) (turnIsWhite g) in
  (gameStatus g' = CheckmateText (opposite (currentTurn g)) <->
   noLegalMoves g /\ inCheck = true) /\
  (gameStatus g' = StalemateText <->
   noLegalMoves g /\ inCheck = false) /\
  (forall winner, gameStatus g' = CheckmateText winner ->
                  winner = opposite (currentTurn g)) /\
  (noLegalMoves g -> gameOver g' = true) /\
  (~ noLegalMoves g ->
   gameOver g' = gameOver g0 /\
   gameStatus g' = if inCheck then CheckText else NoText).
Proof.
  intros g g' inCheck. subst g'. unfold switchTurn. fold g.
  unfold checkGameStatus. fold (turnIsWhite g). fold inCheck.
  rewrite <- hasAnyValidMoves_false.
  assert (Hopp : (if turnIsWhite g then Black else White)
                 = opposite (currentTurn g))
    by (unfold turnIsWhite; destruct (currentTurn g); reflexivity).
  rewrite Hopp.
  destruct (hasAnyValidMoves g), inCheck; simpl;
    repeat split; try congruence; try tauto;
    try (intros [? ?]; congruence);
    try (intros ? ?; congruence).
Qed.

(** C5. Every state reachable from the initial position through the click
    handler, which commits only moves that [getValidMoves] returned for a
    piece of the side to move, has exactly one white king and exactly one
    black king on its board. *)
Theorem C5_one_king_of_each_colour g :
  reachable g ->
  countPiece (board g) (mkPiece King White) = 1%nat /\
  countPiece (board g) (mkPiece King Black) = 1%nat.
Proof.
  intros H. apply reachable_Inv in H.
  destruct H as (_ & Hw & Hb & _). split.
  - apply (countPiece_oneKing (board g) true). assumption.
  - apply (countPiece_oneKing (board g) false). assumption.
Qed.

Lemma C5_witness :
  countPiece (board pawnOnE2) (mkPiece King White) = 1%nat /\
  countPiece (board pawnOnE2) (mkPiece King Black) = 1%nat.
Proof.
  apply (C5_one_king_of_each_colour pawnOnE2).
  exact reachable_pawnOnE2.
Defined.

(** C6. In the initial position, White to move, the legal moves over all
    squares that hold white pieces are 20 distinct moves: 16 from pawns, 4
    from knights, none from any other piece. *)
Theorem C6_twenty_opening_moves :
  currentTurn newGame = White /\
  length (allLegalMoves newGame) = 20%nat /\
  NoDup (allLegalMoves newGame) /\
  length (legalMovesOfKind newGame Pawn) = 16%nat /\
  length (legalMovesOfKind newGame Knight) = 4%nat /\
  legalMovesOfKind newGame Rook = [] /\
  legalMovesOfKind newGame Bishop = [] /\
  legalMovesOfKind newGame Queen = [] /\
  legalMovesOfKind newGame King = [].
Proof.
  split; [reflexivity|].
  split; [vm_compute; reflexivity|].
  split.
  - remember (allLegalMoves newGame) as l eqn:E.
    vm_compute in E. subst l.
    repeat (apply NoDup_cons;
            [simpl; intros H;
             repeat (destruct H as [H|H]; [discriminate H|]); exact H|]).
    apply NoDup_nil.
  - repeat split; vm_compute; reflexivity.
Qed.

(** ** Promotion *)

Lemma getPawnMoves_candidate b hm r c p m :
  cell b r c = Some p -> kind p = Pawn ->
  In m (candidateMoves b hm r c) -> okDest b (isUpper p) m.
Proof.
  intros Hp Hk Hm.
  destruct (candidateMoves_cases _ _ _ _ _ _ Hp Hm) as [H|[H _]];
    [assumption | congruence].
Qed.

(** C7. A legal pawn move to the farthest rank of the pawn's colour (row
    0 for white, row 7 for black), committed by [movePiece], leaves a
    queen of the pawn's colour on the destination square: the square never
    reads as a pawn. *)
Theorem C7_promotion_to_queen g r c p mv :
  wfBoard (board g) ->
  cell (board g) r c = Some p ->
  kind p = Pawn ->
  In mv (getValidMoves g r c) ->
  row mv = (if isUpper p then 0 else 7) ->
  cell (board (movePiece g r c (row mv) (col mv) mv)) (row mv) (col mv)
  = Some (mkPiece Queen (color p)).
Proof.
  intros Hwf Hp Hk Hmv Hrow.
  apply (getValidMoves_In g r c p mv Hp) in Hmv. destruct Hmv as [Hcand _].
  pose proof (getPawnMoves_candidate _ _ _ _ _ _ Hp Hk Hcand) as Hok.
  rewrite (board_movePiece g r c (row mv) (col mv) mv p Hp).
  rewrite (okDest_not_castling _ _ _ Hok).
  destruct Hok as (_ & Hin & _).
  unfold relocateBoard, toLowerCase. rewrite Hk, Hrow.
  assert (E : isUpper p && ((if isUpper p then 0 else 7) =? 0)
              || isLower p && ((if isUpper p then 0 else 7) =? 7) = true)
    by (unfold isUpper, isLower; destruct (color p); reflexivity).
  rewrite E. rewrite <- Hrow.
  rewrite cell_setCell_same by auto using wfBoard_setCell.
  unfold isUpper. destruct p as [k [|]]; reflexivity.
Qed.

Lemma wfBoard_promotionBoard : wfBoard promotionBoard.
Proof. split; [reflexivity|]. repeat constructor. Qed.

Lemma C7_witness :
  cell (board (movePiece promotionGame 1 0 0 0 (plain 0 0))) 0 0 = wQ.
Proof.
  apply (C7_promotion_to_queen promotionGame 1 0 (mkPiece Pawn White)
                               (plain 0 0)).
  - exact wfBoard_promotionBoard.
  - reflexivity.
  - reflexivity.
  - vm_compute. left. reflexivity.
  - reflexivity.
Defined.

(** C8. A committed move that is not a castling move and lands on an
    occupied square appends the captured piece at the end of the list of
    the captured piece's own colour, which grows by one, and leaves the
    other list as it was; a move onto an empty square and a castling move
    leave both lists as they were. *)
Theorem C8_capture_bookkeeping g fromRow fromCol toRow toCol move p :
  cell (board g) fromRow fromCol = Some p ->
  isInBounds toRow toCol = true ->
  let cp := capturedPieces g in
  let cp' := capturedPieces (movePiece g fromRow fromCol toRow toCol move) in
  (isCastling move = false ->
   forall q, cell (board g) toRow toCol = Some q ->
             capturedOf (color q) cp' = capturedOf (color q) cp ++ [q] /\
             length (capturedOf (color q) cp')
             = S (length (capturedOf (color q) cp)) /\
             capturedOf (opposite (color q)) cp'
             = capturedOf (opposite (color q)) cp) /\
  (isCastling move = true \/ cell (board g) toRow toCol = None ->
   cp' = cp).
Proof.
  intros Hp _ cp cp'. subst cp cp'. unfold movePiece. rewrite Hp. split.
  - intros Hc q Hq. rewrite Hc, Hq. simpl.
    unfold pushCaptured, isUpper. destruct (color q); simpl;
      rewrite ?length_app; simpl; repeat split; auto; lia.
  - intros [Hc|Hq].
    + rewrite Hc. reflexivity.
    + rewrite Hq. destruct (isCastling move); reflexivity.
Qed.

(** The pawn on e4 takes the pawn on d5. *)
Lemma C8_witness :
  let cp := capturedPieces afterE4D5 in
  let cp' := capturedPieces (movePiece afterE4D5 4 4 3 3 (plain 3 3)) in
  (false = false ->
   forall q, cell (board afterE4D5) 3 3 = Some q ->
             capturedOf (color q) cp' = capturedOf (color q) cp ++ [q] /\
             length (capturedOf (color q) cp')
             = S (length (capturedOf (color q) cp)) /\
             capturedOf (opposite (color q)) cp'
             = capturedOf (opposite (color q)) cp) /\
  (false = true \/ cell (board afterE4D5) 3 3 = None -> cp' = cp).
Proof.
  apply (C8_capture_bookkeeping afterE4D5 4 4 3 3 (plain 3 3)
                                (mkPiece Pawn White)).
  - reflexivity.
  - reflexivity.
Defined.

(** C9. On any board, a castling candidate of the king's move generator
    names the corner of the king's rank on its side (column 7 for the
    destination column 6, column 0 for the destination column 2), and that
    corner holds a rook of the colour of the piece the generator was
    called for.  The letter test of the source does not look at the case,
    but a rook of the other colour on the corner attacks a square the
    king crosses, so the attack test refuses it. *)
Theorem C9_castling_needs_own_rook b hm r c p mv :
  cell b r c = Some p ->
  In mv (getKingMoves b hm r c) ->
  isCastling mv = true ->
  exists rc,
    rookCol mv = Some rc /\
    row mv = baseRowOf (isUpper p) /\
    ((col mv = 6 /\ rc = 7) \/ (col mv = 2 /\ rc = 0)) /\
    cell b (row mv) rc = Some (mkPiece Rook (color p)) /\
    cell b (row mv) rc <> Some (mkPiece Rook (opposite (color p))).
Proof.
  intros Hp Hmv Hc. unfold getKingMoves in Hmv. rewrite Hp in Hmv.
  apply in_app_or in Hmv. destruct Hmv as [Hmv|Hmv].
  - apply (offsetMoves_okDest _ _ _ _ _ _ Hp) in Hmv.
    rewrite (okDest_not_castling _ _ _ Hmv) in Hc. discriminate.
  - destruct (castling_rook _ _ _ _ _ _ Hmv)
      as (Hrow & _ & rc & q & Hrc & Hside & Hq & Hqk & Hqw).
    exists rc. rewrite Hrow.
    assert (Eq : q = mkPiece Rook (color p)).
    { destruct q as [k cq]. simpl in Hqk. subst k. f_equal.
      unfold isUpper in Hqw. simpl in Hqw.
      destruct cq, (color p); congruence. }
    rewrite Hq, Eq. repeat split; auto.
    destruct (color p); discriminate.
Qed.

Lemma C9_witness :
  exists rc,
    rookCol (castle 7 6 7) = Some rc /\
    row (castle 7 6 7) = baseRowOf (isUpper (mkPiece King White)) /\
    ((col (castle 7 6 7) = 6 /\ rc = 7) \/
     (col (castle 7 6 7) = 2 /\ rc = 0)) /\
    cell (board pawnOnE2) (row (castle 7 6 7)) rc
    = Some (mkPiece Rook (color (mkPiece King White))) /\
    cell (board pawnOnE2) (row (castle 7 6 7)) rc
    <> Some (mkPiece Rook (opposite (color (mkPiece King White)))).
Proof.
  apply (C9_castling_needs_own_rook (board pawnOnE2) (hasMoved pawnOnE2)
                                    7 4 (mkPiece King White) (castle 7 6 7)).
  - reflexivity.
  - vm_compute. auto 10.
  - reflexivity.
Defined.

(** ** The has-moved flags *)

Lemma getCastlingMoves_kingMoved b hm r c w :
  kingMovedOf hm w = true -> getCastlingMoves b hm r c w = [].
Proof.
  unfold getCastlingMoves. fold (kingMovedOf hm w). intros ->.
  destruct (isKingInCheck b w); reflexivity.
Qed.

Lemma hasMoved_movePiece g fr fc tr tc mv p :
  cell (board g) fr fc = Some p ->
  hasMoved (movePiece g fr fc tr tc mv) = trackMoved (hasMoved g) p fc.
Proof.
  unfold movePiece. intros ->.
  destruct (isCastling mv); [reflexivity|].
  destruct (cell (board g) tr tc); reflexivity.
Qed.

Lemma trackMoved_kingMoved hm p fc w :
  kingMovedOf hm w = true -> kingMovedOf (trackMoved hm p fc) w = true.
Proof.
  unfold trackMoved, kingMovedOf.
  destruct (toLowerCase p), (isUpper p), w; simpl; auto.
Qed.

Lemma movePiece_kingMoved g fr fc tr tc mv w :
  kingMovedOf (hasMoved g) w = true ->
  kingMovedOf (hasMoved (movePiece g fr fc tr tc mv)) w = true.
Proof.
  intros H. destruct (cell (board g) fr fc) as [p|] eqn:Hp.
  - rewrite (hasMoved_movePiece g fr fc tr tc mv p Hp).
    apply trackMoved_kingMoved. assumption.
  - unfold movePiece. rewrite Hp. assumption.
Qed.

Lemma switchTurn_hasMoved g : hasMoved (switchTurn g) = hasMoved g.
Proof.
  unfold switchTurn.
  destruct (checkGameStatus_frame (toggleTurn g)) as (_ & _ & _ & _ & _ & E).
  rewrite E. reflexivity.
Qed.

Lemma handleSquareClick_kingMoved g r c w :
  kingMovedOf (hasMoved g) w = true ->
  kingMovedOf (hasMoved (handleSquareClick g r c)) w = true.
Proof.
  intros H. unfold handleSquareClick.
  destruct (gameOver g); [assumption|].
  destruct (selectedSquare g) as [[selRow selCol]|].
  - destruct (find (targets r c) (validMoves g)) as [move|].
    + rewrite switchTurn_hasMoved. simpl.
      apply movePiece_kingMoved. assumption.
    + destruct (isPieceOwnedByCurrentPlayer g r c); assumption.
  - destruct (isPieceOwnedByCurrentPlayer g r c); assumption.
Qed.

Lemma laterState_kingMoved g g' w :
  laterState g g' ->
  kingMovedOf (hasMoved g) w = true ->
  kingMovedOf (hasMoved g') w = true.
Proof.
  induction 1; intros Hk.
  - assumption.
  - apply handleSquareClick_kingMoved. auto.
  - apply movePiece_kingMoved. auto.
  - rewrite switchTurn_hasMoved. auto.
Qed.

(** C10. Committing a castling move that [getValidMoves] returned sets the
    has-moved flag of the king's colour and no other flag: the flag of the
    relocated rook was false and stays false.  From then on, in every
    later state of the game, [getCastlingMoves] returns no candidate for
    that colour on either side, whatever the rook flags say. *)
Theorem C10_castling_once g r c p mv :
  cell (board g) r c = Some p ->
  In mv (getValidMoves g r c) ->
  isCastling mv = true ->
  let w := isUpper p in
  let g1 := movePiece g r c (row mv) (col mv) mv in
  kingMovedOf (hasMoved g1) w = true /\
  kingMovedOf (hasMoved g1) (negb w) = kingMovedOf (hasMoved g) (negb w) /\
  (forall w', kingsideRookMovedOf (hasMoved g1) w'
              = kingsideRookMovedOf (hasMoved g) w' /\
              queensideRookMovedOf (hasMoved g1) w'
              = queensideRookMovedOf (hasMoved g) w') /\
  ((col mv = 6 /\ kingsideRookMovedOf (hasMoved g1) w = false) \/
   (col mv = 2 /\ queensideRookMovedOf (hasMoved g1) w = false)) /\
  (forall g2, laterState g1 g2 ->
              forall r' c',
                getCastlingMoves (board g2) (hasMoved g2) r' c' w = []).
Proof.
  intros Hp Hmv Hc w g1.
  apply (getValidMoves_In g r c p mv Hp) in Hmv. destruct Hmv as [Hcand _].
  destruct (candidateMoves_cases _ _ _ _ _ _ Hp Hcand) as [Hok|[Hk Hcastle]].
  { rewrite (okDest_not_castling _ _ _ Hok) in Hc. discriminate. }
  assert (Hhm : hasMoved g1 = trackMoved (hasMoved g) p c)
    by (apply hasMoved_movePiece; assumption).
  assert (Hking : kingMovedOf (hasMoved g1) w = true).
  { rewrite Hhm. unfold trackMoved, toLowerCase. rewrite Hk.
    subst w. destruct (isUpper p); reflexivity. }
  split; [assumption|].
  split.
  { rewrite Hhm. unfold trackMoved, toLowerCase. rewrite Hk.
    subst w. destruct (isUpper p); reflexivity. }
  split.
  { intros w'. rewrite Hhm. unfold trackMoved, toLowerCase. rewrite Hk.
    destruct (isUpper p), w'; split; reflexivity. }
  split.
  { apply getCastlingMoves_In in Hcastle. fold w in Hcastle.
    destruct Hcastle as [[-> G]|[-> G]]; [left|right];
      (split; [reflexivity|]); rewrite Hhm;
      unfold trackMoved, toLowerCase; rewrite Hk.
    - destruct G as (_ & _ & G & _). subst w.
      destruct (isUpper p); exact G.
    - destruct G as (_ & _ & G & _). subst w.
      destruct (isUpper p); exact G. }
  intros g2 Hlater r' c'. apply getCastlingMoves_kingMoved.
  eapply laterState_kingMoved; eauto.
Qed.

(** White castles short in [pawnOnE2]; two moves later the white king is
    offered no castling. *)
Lemma C10_witness :
  let w := isUpper (mkPiece King White) in
  let g1 := movePiece pawnOnE2 7 4 7 6 (castle 7 6 7) in
  kingMovedOf (hasMoved g1) w = true /\
  kingMovedOf (hasMoved g1) (negb w)
  = kingMovedOf (hasMoved pawnOnE2) (negb w) /\
  (forall w', kingsideRookMovedOf (hasMoved g1) w'
              = kingsideRookMovedOf (hasMoved pawnOnE2) w' /\
              queensideRookMovedOf (hasMoved g1) w'
              = queensideRookMovedOf (hasMoved pawnOnE2) w') /\
  ((col (castle 7 6 7) = 6 /\
    kingsideRookMovedOf (hasMoved g1) w = false) \/
   (col (castle 7 6 7) = 2 /\
    queensideRookMovedOf (hasMoved g1) w = false)) /\
  (forall g2, laterState g1 g2 ->
              forall r' c',
                getCastlingMoves (board g2) (hasMoved g2) r' c' w = []).
Proof.
  apply (C10_castling_once pawnOnE2 7 4 (mkPiece King White)
                           (castle 7 6 7)).
  - reflexivity.
  - vm_compute. auto 10.
  - reflexivity.
Defined.

(** * Further properties of the engine *)

(** ** Rays *)

Lemma ray_In n :
  forall b w r c dr dc m,
    In m (ray n b w r c dr dc) <->
    exists k,
      0 <= k < Z.of_nat n /\
      m = plain (r + k * dr) (c + k * dc) /\
      (forall j, 0 <= j <= k ->
                 isInBounds (r + j * dr) (c + j * dc) = true) /\
      (forall j, 0 <= j < k -> cell b (r + j * dr) (c + j * dc) = None) /\
      (cell b (r + k * dr) (c + k * dc) = None \/
       isOpponentPiece b (r + k * dr) (c + k * dc) w = true).
Proof.
  induction n as [|n IH]; intros b w r c dr dc m.
  - simpl. split; [tauto | intros [k [Hk _]]; lia].
  - assert (E0r : r + 0 * dr = r) by ring.
    assert (E0c : c + 0 * dc = c) by ring.
    assert (Hzero : forall k,
               k = 0 ->
               isInBounds r c = true ->
               cell b r c = None \/ isOpponentPiece b r c w = true ->
               0 <= k < Z.of_nat (S n) /\
               plain r c = plain (r + k * dr) (c + k * dc) /\
               (forall j, 0 <= j <= k ->
                          isInBounds (r + j * dr) (c + j * dc) = true) /\
               (forall j, 0 <= j < k ->
                          cell b (r + j * dr) (c + j * dc) = None) /\
               (cell b (r + k * dr) (c + k * dc) = None \/
                isOpponentPiece b (r + k * dr) (c + k * dc) w = true)).
    { intros k -> Hin Ht. rewrite E0r, E0c.
      split; [lia|]. split; [reflexivity|]. split; [|split; [|assumption]].
      - intros j Hj. replace j with 0 by lia. rewrite E0r, E0c. assumption.
      - intros j Hj. lia. }
    change (ray (S n) b w r c dr dc)
      with (if isInBounds r c then
              if isEmpty b r c then
                plain r c :: ray n b w (r + dr) (c + dc) dr dc
              else if isOpponentPiece b r c w then [plain r c] else []
            else []).
    split.
    + destruct (isInBounds r c) eqn:Hin; [|intros []].
      destruct (isEmpty b r c) eqn:He.
      * apply isEmpty_true in He. intros [<-|H].
        -- exists 0. apply Hzero; auto.
        -- apply IH in H. destruct H as (k & Hk & -> & Hb & Hn & Ht).
           exists (k + 1).
           replace (r + (k + 1) * dr) with (r + dr + k * dr) by ring.
           replace (c + (k + 1) * dc) with (c + dc + k * dc) by ring.
           split; [lia|]. split; [reflexivity|].
           split; [|split; [|assumption]]; intros j Hj;
             (destruct (Z.eq_dec j 0) as [->|Nj];
              [rewrite E0r, E0c; assumption|]);
             replace (r + j * dr) with (r + dr + (j - 1) * dr) by ring;
             replace (c + j * dc) with (c + dc + (j - 1) * dc) by ring;
             [apply Hb | apply Hn]; lia.
      * destruct (isOpponentPiece b r c w) eqn:Ho; [|intros []].
        intros [<-|[]]. exists 0. apply Hzero; auto.
    + intros (k & Hk & -> & Hb & Hn & Ht).
      pose proof (Hb 0 ltac:(lia)) as Hin. rewrite E0r, E0c in Hin.
      rewrite Hin.
      destruct (Z.eq_dec k 0) as [->|Nk].
      * rewrite E0r, E0c in *.
        destruct Ht as [Ht|Ht].
        -- apply isEmpty_true in Ht. rewrite Ht. left. reflexivity.
        -- destruct (isEmpty b r c); [left; reflexivity|].
           rewrite Ht. left. reflexivity.
      * pose proof (Hn 0 ltac:(lia)) as H0. rewrite E0r, E0c in H0.
        apply isEmpty_true in H0. rewrite H0. right.
        apply IH. exists (k - 1).
        replace (r + dr + (k - 1) * dr) with (r + k * dr) by ring.
        replace (c + dc + (k - 1) * dc) with (c + k * dc) by ring.
        split; [lia|]. split; [reflexivity|].
        split; [|split; [|assumption]]; intros j Hj;
          replace (r + dr + j * dr) with (r + (j + 1) * dr) by ring;
          replace (c + dc + j * dc) with (c + (j + 1) * dc) by ring;
          [apply Hb | apply Hn]; lia.
Qed.

Lemma isOpponentPiece_iff b r c p :
  isOpponentPiece b r c (isUpper p) = true <->
  exists q, cell b r c = Some q /\ color q <> color p.
Proof.
  unfold isOpponentPiece, isUpper, isLower.
  destruct (cell b r c) as [q|].
  - split.
    + intros H. exists q. split; [reflexivity|].
      destruct (color p), (color q); congruence.
    + intros [q' [E H]]. inversion E; subst.
      destruct (color p), (color q'); congruence.
  - split; [discriminate | intros [q [E _]]; discriminate].
Qed.

Lemma getLinearMoves_In b r c p dirs m :
  cell b r c = Some p ->
  (forall d, In d dirs -> In d queenDirections) ->
  In m (getLinearMoves b r c dirs) <->
  exists dr dc k,
    In (dr, dc) dirs /\ 1 <= k /\
    m = plain (r + k * dr) (c + k * dc) /\
    isInBounds (r + k * dr) (c + k * dc) = true /\
    (forall j, 1 <= j < k -> cell b (r + j * dr) (c + j * dc) = None) /\
    (cell b (r + k * dr) (c + k * dc) = None \/
     exists q, cell b (r + k * dr) (c + k * dc) = Some q /\
               color q <> color p).
Proof.
  intros Hp Hdirs. unfold getLinearMoves. rewrite Hp.
  rewrite in_flat_map. split.
  - intros [[dr dc] [Hd H]]. cbn [fst snd] in H. apply ray_In in H.
    destruct H as (k & Hk & -> & Hb & Hn & Ht).
    exists dr, dc, (k + 1).
    replace (r + (k + 1) * dr) with (r + dr + k * dr) by ring.
    replace (c + (k + 1) * dc) with (c + dc + k * dc) by ring.
    split; [assumption|]. split; [lia|]. split; [reflexivity|].
    split; [apply Hb; lia|]. split.
    + intros j Hj.
      replace (r + j * dr) with (r + dr + (j - 1) * dr) by ring.
      replace (c + j * dc) with (c + dc + (j - 1) * dc) by ring.
      apply Hn. lia.
    + destruct Ht as [Ht|Ht]; [left; assumption|right].
      apply isOpponentPiece_iff. assumption.
  - intros (dr & dc & k & Hd & Hk & -> & Hin & Hn & Ht).
    exists (dr, dc). split; [assumption|]. cbn [fst snd].
    apply ray_In. exists (k - 1).
    replace (r + dr + (k - 1) * dr) with (r + k * dr) by ring.
    replace (c + dc + (k - 1) * dc) with (c + k * dc) by ring.
    assert (Hin0 : isInBounds r c = true) by (eapply cell_Some_inb; eauto).
    apply isInBounds_spec in Hin, Hin0.
    pose proof (Hdirs _ Hd) as Hq. simpl in Hq.
    split.
    { repeat (destruct Hq as [Hq|Hq]; [inversion Hq; subst; simpl; lia|]).
      contradiction. }
    split; [reflexivity|]. split; [|split].
    + intros j Hj. apply isInBounds_spec.
      repeat (destruct Hq as [Hq|Hq]; [inversion Hq; subst; lia|]).
      contradiction.
    + intros j Hj.
      replace (r + dr + j * dr) with (r + (j + 1) * dr) by ring.
      replace (c + dc + j * dc) with (c + (j + 1) * dc) by ring.
      apply Hn. lia.
    + destruct Ht as [Ht|Ht]; [left; assumption|right].
      apply isOpponentPiece_iff. assumption.
Qed.

(** X1. The moves of a rook, bishop or queen are exactly the squares
    reached by walking from the piece along one of its directions over
    empty squares only, and stopping on an empty square or on a piece of
    the other colour: no move jumps over a piece, none lands on a piece of
    the mover's colour, none leaves the board. *)
Theorem X1_linear_moves_characterised b r c p dirs m :
  cell b r c = Some p ->
  (forall d, In d dirs -> In d queenDirections) ->
  In m (getLinearMoves b r c dirs) <->
  exists dr dc k,
    In (dr, dc) dirs /\ 1 <= k /\
    m = plain (r + k * dr) (c + k * dc) /\
    isInBounds (r + k * dr) (c + k * dc) = true /\
    (forall j, 1 <= j < k -> cell b (r + j * dr) (c + j * dc) = None) /\
    (cell b (r + k * dr) (c + k * dc) = None \/
     exists q, cell b (r + k * dr) (c + k * dc) = Some q /\
               color q <> color p).
Proof. exact (getLinearMoves_In b r c p dirs m). Qed.

(** The rook on h1 of [pawnOnE2] reaches g1. *)
Lemma X1_witness :
  In (plain 7 6) (getLinearMoves (board pawnOnE2) 7 7 rookDirections) <->
  exists dr dc k,
    In (dr, dc) rookDirections /\ 1 <= k /\
    plain 7 6 = plain (7 + k * dr) (7 + k * dc) /\
    isInBounds (7 + k * dr) (7 + k * dc) = true /\
    (forall j, 1 <= j < k ->
               cell (board pawnOnE2) (7 + j * dr) (7 + j * dc) = None) /\
    (cell (board pawnOnE2) (7 + k * dr) (7 + k * dc) = None \/
     exists q, cell (board pawnOnE2) (7 + k * dr) (7 + k * dc) = Some q /\
               color q <> color (mkPiece Rook White)).
Proof.
  apply (X1_linear_moves_characterised (board pawnOnE2) 7 7
           (mkPiece Rook White) rookDirections (plain 7 6)).
  - reflexivity.
  - simpl. tauto.
Defined.

(** X2. A bishop stays on squares of the colour [initializeBoard] gave
    its own square. *)
Theorem X2_bishop_keeps_square_colour b r c m :
  In m (getBishopMoves b r c) ->
  isLightSquare (row m) (col m) = isLightSquare r c.
Proof.
  unfold getBishopMoves. intros H.
  destruct (cell b r c) as [p|] eqn:Hp;
    [|unfold getLinearMoves in H; rewrite Hp in H; contradiction].
  apply (getLinearMoves_In b r c p bishopDirections m Hp) in H;
    [|simpl; tauto].
  destruct H as (dr & dc & k & Hd & _ & -> & _).
  unfold isLightSquare. simpl row. simpl col.
  replace ((r + k * dr + (c + k * dc)) mod 2) with ((r + c) mod 2);
    [reflexivity|].
  simpl in Hd.
  repeat (destruct Hd as [Hd|Hd];
          [inversion Hd; subst; Z.to_euclidean_division_equations; lia|]).
  contradiction.
Qed.

Lemma X2_witness :
  isLightSquare (row (plain 5 7)) (col (plain 5 7)) = isLightSquare 6 6.
Proof.
  apply (X2_bishop_keeps_square_colour (board pawnOnE2) 6 6 (plain 5 7)).
  vm_compute. auto 10.
Defined.

(** X3. A rook moves along its row or along its column. *)
Theorem X3_rook_moves_on_lines b r c m :
  In m (getRookMoves b r c) -> row m = r \/ col m = c.
Proof.
  unfold getRookMoves. intros H.
  destruct (cell b r c) as [p|] eqn:Hp;
    [|unfold getLinearMoves in H; rewrite Hp in H; contradiction].
  apply (getLinearMoves_In b r c p rookDirections m Hp) in H;
    [|simpl; tauto].
  destruct H as (dr & dc & k & Hd & _ & -> & _).
  simpl in *.
  repeat (destruct Hd as [Hd|Hd]; [inversion Hd; subst; lia|]).
  contradiction.
Qed.

Lemma X3_witness : row (plain 7 6) = 7 \/ col (plain 7 6) = 7.
Proof.
  apply (X3_rook_moves_on_lines (board pawnOnE2) 7 7 (plain 7 6)).
  vm_compute. auto 10.
Defined.

(** ** Destinations of legal moves *)

(** X4. Every move [getValidMoves] returns lands on the board, on a square
    other than the piece's own, and never on a piece of the mover's
    colour. *)
Theorem X4_legal_destinations g r c p mv :
  cell (board g) r c = Some p ->
  In mv (getValidMoves g r c) ->
  isInBounds (row mv) (col mv) = true /\
  (row mv, col mv) <> (r, c) /\
  (forall q, cell (board g) (row mv) (col mv) = Some q ->
             color q <> color p).
Proof.
  intros Hp Hmv.
  apply (getValidMoves_In g r c p mv Hp) in Hmv. destruct Hmv as [Hcand _].
  destruct (candidate_dest _ _ _ _ _ _ Hp Hcand) as [Hin Hne].
  split; [assumption|]. split; [assumption|].
  intros q Hq.
  destruct (candidateMoves_cases _ _ _ _ _ _ Hp Hcand) as [Hok|[_ Hc]].
  - destruct Hok as (_ & _ & [Hd|Hd]).
    + apply isEmpty_true in Hd. congruence.
    + apply isOpponentPiece_iff in Hd. destruct Hd as [q' [Hq' Hcol]].
      congruence.
  - exfalso. apply getCastlingMoves_In in Hc.
    destruct Hc as [[-> G]|[-> G]]; simpl in *.
    + destruct G as (_ & _ & _ & _ & H6 & _). congruence.
    + destruct G as (_ & _ & _ & _ & H2 & _). congruence.
Qed.

Lemma X4_witness :
  isInBounds (row (plain 3 3)) (col (plain 3 3)) = true /\
  (row (plain 3 3), col (plain 3 3)) <> (4, 4) /\
  (forall q, cell (board afterE4D5) (row (plain 3 3)) (col (plain 3 3))
             = Some q ->
             color q <> color (mkPiece Pawn White)).
Proof.
  apply (X4_legal_destinations afterE4D5 4 4 (mkPiece Pawn White)
                               (plain 3 3)).
  - reflexivity.
  - vm_compute. auto 10.
Defined.

(** ** Pawns in the attack sweep *)

(** X5. On an empty square a pawn shows up in the move lists only by
    stepping straight ahead: [getPawnMoves] holds no diagonal step onto
    an empty square, so in the attack sweep a pawn never covers an empty
    square of a neighbouring file. *)
Theorem X5_pawn_reaches_empty_square_only_ahead b r c p tr tc :
  cell b r c = Some p ->
  cell b tr tc = None ->
  existsb (targets tr tc) (getPawnMoves b r c) = true ->
  tc = c /\
  (tr = r + pawnDirection p \/
   (tr = r + 2 * pawnDirection p /\ r = if isUpper p then 6 else 1)).
Proof.
  intros Hp Ht H. apply existsb_targets_In in H.
  destruct H as (m & Hm & Hr & Hc).
  unfold getPawnMoves in Hm. rewrite Hp in Hm.
  fold (pawnDirection p) in Hm.
  set (dir := pawnDirection p) in *.
  set (start := if isUpper p then 6 else 1) in *.
  apply in_app_or in Hm. destruct Hm as [Hm|Hm].
  - destruct (isInBounds (r + dir) c && isEmpty b (r + dir) c);
      [|contradiction].
    destruct Hm as [<-|Hm]; [simpl in *; split; [lia|left; lia]|].
    destruct (r =? start) eqn:Es; [|contradiction].
    destruct (isEmpty b (r + 2 * dir) c); [|contradiction].
    destruct Hm as [<-|[]]. simpl in *. apply Z.eqb_eq in Es.
    split; [lia|right; lia].
  - exfalso. apply in_flat_map in Hm. destruct Hm as [o [_ Hm]].
    destruct (isInBounds (r + dir) (c + o)); [|contradiction].
    destruct (isEmpty b (r + dir) (c + o)) eqn:He; [contradiction|].
    destruct (isOpponentPiece b (r + dir) (c + o) (isUpper p));
      [|contradiction].
    destruct Hm as [<-|[]]. simpl in *. subst tr tc.
    apply isEmpty_true in Ht. congruence.
Qed.

(** The black pawn on a7 of the initial position stepping to a6. *)
Lemma X5_witness :
  0 = 0 /\
  (2 = 1 + pawnDirection (mkPiece Pawn Black) \/
   (2 = 1 + 2 * pawnDirection (mkPiece Pawn Black) /\
    1 = if isUpper (mkPiece Pawn Black) then 6 else 1)).
Proof.
  apply (X5_pawn_reaches_empty_square_only_ahead INITIAL_BOARD 1 0
           (mkPiece Pawn Black) 2 0); reflexivity.
Defined.

(** X6. A pawn of the other colour standing right behind an empty square
    (seen along its direction of travel) makes [isSquareUnderAttack]
    report that square, although a pawn does not capture straight ahead. *)
Theorem X6_pawn_push_counts_as_attack b r c p w :
  cell b r c = Some p -> kind p = Pawn -> isOpponentOf w p = true ->
  isInBounds (r + pawnDirection p) c = true ->
  cell b (r + pawnDirection p) c = None ->
  isSquareUnderAttack b (r + pawnDirection p) c w = true.
Proof.
  intros Hp Hk Hopp Hin Hempty. apply sweep_true. exists r, c.
  unfold attacksFrom. rewrite Hp, Hopp. simpl.
  unfold getValidMovesWithoutCheckValidation, toLowerCase. rewrite Hp, Hk.
  apply existsb_targets_In. exists (plain (r + pawnDirection p) c).
  split; [|auto].
  unfold getPawnMoves. rewrite Hp. fold (pawnDirection p).
  apply isEmpty_true in Hempty. rewrite Hin, Hempty.
  apply in_or_app. left. left. reflexivity.
Qed.

Lemma X6_witness :
  isSquareUnderAttack (board pawnOnE2)
    (6 + pawnDirection (mkPiece Pawn White)) 0 false = true.
Proof.
  apply (X6_pawn_push_counts_as_attack (board pawnOnE2) 6 0
           (mkPiece Pawn White) false); reflexivity.
Defined.

(** ** The check analyzer *)

(** X7. With no king of the colour on the board, [isKingInCheck] answers
    false. *)
Theorem X7_no_king_no_check b w :
  countPiece b (mkPiece King (colorOf w)) = 0%nat ->
  isKingInCheck b w = false.
Proof.
  intros H. rewrite isKingInCheck_sweep.
  destruct (findKing b w) as [[kr kc]|] eqn:E; [|reflexivity].
  exfalso. unfold findKing in E. apply find_some in E.
  destruct E as [Hin Hk]. simpl in Hk.
  unfold countPiece in H. apply length_zero_iff_nil in H.
  rewrite filter_nil_iff in H. specialize (H _ Hin). simpl in H.
  destruct (cell b kr kc) as [q|]; [|discriminate].
  rewrite Piece_eqb_king in H. congruence.
Qed.

(** The pawn ending of [promotionBoard] with the white king taken off. *)
Lemma X7_witness :
  isKingInCheck (setCell promotionBoard 7 4 None) true = false.
Proof.
  apply (X7_no_king_no_check (setCell promotionBoard 7 4 None) true).
  reflexivity.
Defined.

(** X8. When the board holds exactly one king of a colour, that king is
    in check exactly when [isSquareUnderAttack] reports its square: the
    two sweeps agree. *)
Theorem X8_check_is_attack_on_king_square b w kr kc :
  oneKing b w ->
  isKingOf w (cell b kr kc) = true ->
  isKingInCheck b w = isSquareUnderAttack b kr kc w.
Proof.
  intros Hone Hk. rewrite isKingInCheck_sweep.
  rewrite (findKing_oneKing b w kr kc Hone Hk). reflexivity.
Qed.

Lemma X8_witness :
  isKingInCheck (board pawnOnE2) true
  = isSquareUnderAttack (board pawnOnE2) 7 4 true.
Proof.
  apply (X8_check_is_attack_on_king_square (board pawnOnE2) true 7 4).
  - apply (countPiece_oneKing (board pawnOnE2) true). reflexivity.
  - reflexivity.
Defined.

(** ** What a committed move writes *)

(** X9. An ordinary (non-castling) move empties the origin square, puts
    the moved piece on the destination (a queen of its colour when a pawn
    arrives on its last rank) and leaves every other square as it was. *)
Theorem X9_ordinary_move_board g fr fc tr tc mv p :
  wfBoard (board g) ->
  cell (board g) fr fc = Some p ->
  isInBounds tr tc = true ->
  (tr, tc) <> (fr, fc) ->
  isCastling mv = false ->
  let b' := board (movePiece g fr fc tr tc mv) in
  cell b' fr fc = None /\
  cell b' tr tc =
    Some (if Kind_eqb (kind p) Pawn && (tr =? if isUpper p then 0 else 7)
          then mkPiece Queen (color p) else p) /\
  (forall r c, (r, c) <> (fr, fc) -> (r, c) <> (tr, tc) ->
               cell b' r c = cell (board g) r c).
Proof.
  intros Hwf Hp Ht Hne Hc b'. subst b'.
  rewrite (board_movePiece g fr fc tr tc mv p Hp), Hc.
  assert (Hf : isInBounds fr fc = true) by (eapply cell_Some_inb; eauto).
  assert (Hsim : forall r c,
             cell (simulateMove (board g) fr fc tr tc p) r c =
             if (fr =? r) && (fc =? c) then None
             else if (tr =? r) && (tc =? c) then Some p
                  else cell (board g) r c)
    by (intros; apply cell_simulateMove; assumption).
  assert (Eff : (fr =? fr) && (fc =? fc) = true) by lia.
  assert (Ett : (tr =? tr) && (tc =? tc) = true) by lia.
  assert (Eft : (fr =? tr) && (fc =? tc) = false).
  { destruct ((fr =? tr) && (fc =? tc)) eqn:E; [|reflexivity].
    apply and_eqb_true in E. destruct E; subst. congruence. }
  assert (Etf : (tr =? fr) && (tc =? fc) = false).
  { destruct ((tr =? fr) && (tc =? fc)) eqn:E; [|reflexivity].
    apply and_eqb_true in E. destruct E; subst. congruence. }
  assert (Hother : forall r c, (r, c) <> (fr, fc) -> (r, c) <> (tr, tc) ->
             (fr =? r) && (fc =? c) = false /\
             (tr =? r) && (tc =? c) = false).
  { intros r c N1 N2. split.
    - destruct ((fr =? r) && (fc =? c)) eqn:E; [|reflexivity].
      apply and_eqb_true in E. destruct E; subst. congruence.
    - destruct ((tr =? r) && (tc =? c)) eqn:E; [|reflexivity].
      apply and_eqb_true in E. destruct E; subst. congruence. }
  unfold relocateBoard. fold (simulateMove (board g) fr fc tr tc p).
  unfold toLowerCase.
  assert (Elast : (isUpper p && (tr =? 0) || isLower p && (tr =? 7))
                  = (tr =? if isUpper p then 0 else 7))
    by (unfold isUpper, isLower; destruct (color p); simpl;
        rewrite ?orb_false_r; reflexivity).
  rewrite Elast.
  assert (Hq : mkPiece Queen (if isUpper p then White else Black)
               = mkPiece Queen (color p))
    by (unfold isUpper; destruct (color p); reflexivity).
  rewrite Hq.
  destruct (kind p); simpl;
    try (rewrite !Hsim, Eff, Eft, Ett; repeat split; auto;
         intros r c N1 N2; rewrite Hsim;
         destruct (Hother r c N1 N2) as [-> ->]; reflexivity).
  destruct (tr =? (if isUpper p then 0 else 7)).
  - rewrite !cell_setCell_inb by auto using wfBoard_simulateMove.
    rewrite !Hsim, Eff, Etf, Ett. repeat split; auto.
    intros r c N1 N2. rewrite cell_setCell_inb
      by auto using wfBoard_simulateMove.
    rewrite Hsim. destruct (Hother r c N1 N2) as [-> ->]. reflexivity.
  - rewrite !Hsim, Eff, Eft, Ett. repeat split; auto.
    intros r c N1 N2. rewrite Hsim.
    destruct (Hother r c N1 N2) as [-> ->]. reflexivity.
Qed.

(** The white pawn of [promotionGame] steps from a7 to a8. *)
Lemma X9_witness :
  let b' := board (movePiece promotionGame 1 0 0 0 (plain 0 0)) in
  cell b' 1 0 = None /\
  cell b' 0 0 =
    Some (if Kind_eqb (kind (mkPiece Pawn White)) Pawn
             && (0 =? if isUpper (mkPiece Pawn White) then 0 else 7)
          then mkPiece Queen (color (mkPiece Pawn White))
          else mkPiece Pawn White) /\
  (forall r c, (r, c) <> (1, 0) -> (r, c) <> (0, 0) ->
               cell b' r c = cell (board promotionGame) r c).
Proof.
  apply (X9_ordinary_move_board promotionGame 1 0 0 0 (plain 0 0)
                                (mkPiece Pawn White)).
  - exact wfBoard_promotionBoard.
  - reflexivity.
  - reflexivity.
  - discriminate.
  - reflexivity.
Defined.

(** X10. Committing a castling move that [getValidMoves] returned puts the
    king on its destination (column 6 or 2 of its base rank) and the rook
    of the named corner next to it on the inside (column 5 or 3), empties
    the king's square and the corner, and leaves every other square as it
    was. *)
Theorem X10_castling_board g r c p mv :
  wfBoard (board g) ->
  cell (board g) r c = Some p ->
  In mv (getValidMoves g r c) ->
  isCastling mv = true ->
  let b' := board (movePiece g r c (row mv) (col mv) mv) in
  exists rc rt,
    rookCol mv = Some rc /\
    ((col mv = 6 /\ rc = 7 /\ rt = 5) \/ (col mv = 2 /\ rc = 0 /\ rt = 3)) /\
    row mv = baseRowOf (isUpper p) /\
    cell b' (row mv) (col mv) = Some p /\
    cell b' (row mv) rt = Some (mkPiece Rook (color p)) /\
    cell b' r c = None /\
    cell b' (row mv) rc = None /\
    (forall r' c',
        (r', c') <> (r, c) -> (r', c') <> (row mv, col mv) ->
        (r', c') <> (row mv, rt) -> (r', c') <> (row mv, rc) ->
        cell b' r' c' = cell (board g) r' c').
Proof.
  intros Hwf Hp Hmv Hc b'. subst b'.
  apply (getValidMoves_In g r c p mv Hp) in Hmv. destruct Hmv as [Hcand _].
  destruct (candidateMoves_cases _ _ _ _ _ _ Hp Hcand) as [Hok|[Hk Hcastle]].
  { rewrite (okDest_not_castling _ _ _ Hok) in Hc. discriminate. }
  rewrite (board_movePiece g r c (row mv) (col mv) mv p Hp), Hc.
  destruct (castling_rook _ _ _ _ _ _ Hcastle)
    as (Hrow & _ & rc & q & Hrc & Hside & Hq & Hqk & Hqw).
  assert (Eq : q = mkPiece Rook (color p)).
  { destruct q as [k cq]. simpl in Hqk. subst k. f_equal.
    unfold isUpper in Hqw. simpl in Hqw.
    destruct cq, (color p); congruence. }
  subst q.
  set (rt := if col mv =? 6 then 5 else 3).
  assert (Hf : isInBounds r c = true) by (eapply cell_Some_inb; eauto).
  pose proof (baseRowOf_cases (isUpper p)) as Hbr.
  assert (Hcells : cell (board g) (row mv) (col mv) = None /\
                   cell (board g) (row mv) rt = None).
  { apply getCastlingMoves_In in Hcastle. subst rt.
    destruct Hcastle as [[-> G]|[-> G]]; simpl.
    - destruct G as (_ & _ & _ & H5 & H6 & _). auto.
    - destruct G as (_ & _ & _ & _ & H2 & H3 & _). auto. }
  destruct Hcells as [Hto Hrt].
  assert (Hcols : (col mv = 6 /\ rc = 7 /\ rt = 5) \/
                  (col mv = 2 /\ rc = 0 /\ rt = 3)).
  { subst rt. destruct Hside as [[-> ->]|[-> ->]]; simpl; auto. }
  assert (Ht : isInBounds (row mv) (col mv) = true)
    by (apply isInBounds_spec; lia).
  assert (Hr : isInBounds (row mv) rc = true)
    by (apply isInBounds_spec; lia).
  assert (Hcb : forall r' c',
             cell (castleBoard (board g) r c (row mv) (col mv) p mv) r' c' =
             if (row mv =? r') && (rc =? c') then None
             else if (row mv =? r') && (rt =? c')
                  then cell (simulateMove (board g) r c (row mv) (col mv) p)
                            (row mv) rc
                  else cell (simulateMove (board g) r c (row mv) (col mv) p)
                            r' c')
    by (intros; apply cell_castleBoard; assumption).
  assert (Hsim : forall r' c',
             cell (simulateMove (board g) r c (row mv) (col mv) p) r' c' =
             if (r =? r') && (c =? c') then None
             else if (row mv =? r') && (col mv =? c') then Some p
                  else cell (board g) r' c')
    by (intros; apply cell_simulateMove; assumption).
  assert (Neq : forall a b a' b', (a, b) <> (a', b') ->
                                  (a =? a') && (b =? b') = false).
  { intros a b0 a' b0' N. destruct ((a =? a') && (b0 =? b0')) eqn:E;
      [|reflexivity]. apply and_eqb_true in E. destruct E; subst.
    congruence. }
  assert (Nfrom : forall x, cell (board g) (row mv) x <> Some p ->
                            (r =? row mv) && (c =? x) = false).
  { intros x N. apply Neq. intros E. inversion E; subst. congruence. }
  assert (Efto : (r =? row mv) && (c =? col mv) = false)
    by (apply Nfrom; congruence).
  assert (Efrt : (r =? row mv) && (c =? rt) = false)
    by (apply Nfrom; congruence).
  assert (Efrc : (r =? row mv) && (c =? rc) = false).
  { apply Nfrom. rewrite <- Hrow in Hq. rewrite Hq. intros E.
    inversion E as [E']. rewrite <- E' in Hk. discriminate. }
  rewrite <- Hrow in Hq.
  exists rc, rt. split; [assumption|]. split; [assumption|].
  split; [assumption|].
  rewrite !Hcb, !Hsim.
  assert (Err : (row mv =? row mv) = true) by apply Z.eqb_refl.
  rewrite Efto, Efrc, Err, !Z.eqb_refl. simpl.
  assert (Ecols : (rc =? col mv) = false /\ (rt =? col mv) = false /\
                  (col mv =? rc) = false /\ (rc =? rt) = false)
    by (destruct Hcols as [(-> & -> & ->)|(-> & -> & ->)]; auto).
  destruct Ecols as (E1 & E2 & E3 & E4).
  rewrite E1, E2, E3, E4. simpl.
  split; [reflexivity|]. split; [assumption|].
  split.
  { destruct ((row mv =? r) && (rc =? c)); [reflexivity|].
    destruct ((row mv =? r) && (rt =? c)) eqn:E.
    - apply and_eqb_true in E. destruct E; subst r c.
      rewrite Z.eqb_refl in Efrt. simpl in Efrt.
      rewrite Z.eqb_refl in Efrt. discriminate.
    - reflexivity. }
  split; [reflexivity|].
  intros r' c' N1 N2 N3 N4.
  rewrite Hcb.
  rewrite (Neq _ _ _ _ (fun E => N4 (eq_sym E))).
  rewrite (Neq _ _ _ _ (fun E => N3 (eq_sym E))).
  rewrite Hsim.
  rewrite (Neq _ _ _ _ (fun E => N1 (eq_sym E))).
  rewrite (Neq _ _ _ _ (fun E => N2 (eq_sym E))).
  reflexivity.
Qed.

(** White castles short in [pawnOnE2]. *)
Lemma X10_witness :
  let b' := board (movePiece pawnOnE2 7 4 (row (castle 7 6 7))
                             (col (castle 7 6 7)) (castle 7 6 7)) in
  exists rc rt,
    rookCol (castle 7 6 7) = Some rc /\
    ((col (castle 7 6 7) = 6 /\ rc = 7 /\ rt = 5) \/
     (col (castle 7 6 7) = 2 /\ rc = 0 /\ rt = 3)) /\
    row (castle 7 6 7) = baseRowOf (isUpper (mkPiece King White)) /\
    cell b' (row (castle 7 6 7)) (col (castle 7 6 7))
    = Some (mkPiece King White) /\
    cell b' (row (castle 7 6 7)) rt
    = Some (mkPiece Rook (color (mkPiece King White))) /\
    cell b' 7 4 = None /\
    cell b' (row (castle 7 6 7)) rc = None /\
    (forall r' c',
        (r', c') <> (7, 4) ->
        (r', c') <> (row (castle 7 6 7), col (castle 7 6 7)) ->
        (r', c') <> (row (castle 7 6 7), rt) ->
        (r', c') <> (row (castle 7 6 7), rc) ->
        cell b' r' c' = cell (board pawnOnE2) r' c').
Proof.
  apply (X10_castling_board pawnOnE2 7 4 (mkPiece King White)
                            (castle 7 6 7)).
  - apply reachable_wf. exact reachable_pawnOnE2.
  - reflexivity.
  - vm_compute. auto 10.
  - reflexivity.
Defined.

(** ** Has-moved flags over a game *)

Lemma flagsKept_refl hm : flagsKept hm hm.
Proof. unfold flagsKept. tauto. Qed.

Lemma flagsKept_trans hm1 hm2 hm3 :
  flagsKept hm1 hm2 -> flagsKept hm2 hm3 -> flagsKept hm1 hm3.
Proof. unfold flagsKept. tauto. Qed.

Lemma trackMoved_flagsKept hm p fc : flagsKept hm (trackMoved hm p fc).
Proof.
  unfold flagsKept, trackMoved.
  destruct (toLowerCase p), (isUpper p); simpl;
    repeat split; auto; intros ->; apply orb_true_r.
Qed.

Lemma movePiece_flagsKept g fr fc tr tc mv :
  flagsKept (hasMoved g) (hasMoved (movePiece g fr fc tr tc mv)).
Proof.
  destruct (cell (board g) fr fc) as [p|] eqn:Hp.
  - rewrite (hasMoved_movePiece g fr fc tr tc mv p Hp).
    apply trackMoved_flagsKept.
  - unfold movePiece. rewrite Hp. apply flagsKept_refl.
Qed.

Lemma handleSquareClick_flagsKept g r c :
  flagsKept (hasMoved g) (hasMoved (handleSquareClick g r c)).
Proof.
  unfold handleSquareClick.
  destruct (gameOver g); [apply flagsKept_refl|].
  destruct (selectedSquare g) as [[selRow selCol]|].
  - destruct (find (targets r c) (validMoves g)) as [move|].
    + rewrite switchTurn_hasMoved. simpl. apply movePiece_flagsKept.
    + destruct (isPieceOwnedByCurrentPlayer g r c); apply flagsKept_refl.
  - destruct (isPieceOwnedByCurrentPlayer g r c); apply flagsKept_refl.
Qed.

Lemma laterState_flagsKept g g' :
  laterState g g' -> flagsKept (hasMoved g) (hasMoved g').
Proof.
  induction 1.
  - apply flagsKept_refl.
  - eapply flagsKept_trans; [eassumption|].
    apply handleSquareClick_flagsKept.
  - eapply flagsKept_trans; [eassumption|].
    apply movePiece_flagsKept.
  - rewrite switchTurn_hasMoved. assumption.
Qed.

(** X11. None of the six has-moved flags is ever cleared in the course of
    a game: a flag that is set stays set in every later state. *)
Theorem X11_flags_never_cleared g g' :
  laterState g g' -> flagsKept (hasMoved g) (hasMoved g').
Proof. exact (laterState_flagsKept g g'). Qed.

Lemma X11_witness :
  flagsKept (hasMoved newGame) (hasMoved pawnOnE2).
Proof.
  apply (X11_flags_never_cleared newGame pawnOnE2).
  unfold pawnOnE2, clicks. simpl fold_left.
  repeat apply later_click. apply later_here.
Defined.

(** X12. Once a rook has been moved away from column 7 (column 0), on
    whatever row it stood, [getCastlingMoves] offers its colour no
    kingside (queenside) candidate in any later state. *)
Theorem X12_rook_move_ends_castling_on_its_side
        g fr fc tr tc mv p g2 r' c' m :
  cell (board g) fr fc = Some p ->
  kind p = Rook ->
  laterState (movePiece g fr fc tr tc mv) g2 ->
  In m (getCastlingMoves (board g2) (hasMoved g2) r' c' (isUpper p)) ->
  (fc = 7 -> col m <> 6) /\ (fc = 0 -> col m <> 2).
Proof.
  intros Hp Hk Hlater Hm.
  apply laterState_flagsKept in Hlater.
  rewrite (hasMoved_movePiece g fr fc tr tc mv p Hp) in Hlater.
  unfold trackMoved, toLowerCase in Hlater. rewrite Hk in Hlater.
  apply getCastlingMoves_In in Hm.
  unfold flagsKept in Hlater.
  destruct Hlater as (_ & _ & HwL & HwR & HbL & HbR).
  split; intros ->; intros Hcol.
  - destruct Hm as [[-> G]|[-> G]]; [|discriminate Hcol].
    destruct G as (_ & _ & G & _). unfold kingsideRookMovedOf in G.
    destruct (isUpper p); simpl in *;
      [rewrite HwR in G | rewrite HbR in G]; auto; discriminate.
  - destruct Hm as [[-> G]|[-> G]]; [discriminate Hcol|].
    destruct G as (_ & _ & G & _). unfold queensideRookMovedOf in G.
    destruct (isUpper p); simpl in *;
      [rewrite HwL in G | rewrite HbL in G]; auto; discriminate.
Qed.

(** The white rook leaves h1 in [rooksGame]; only the queenside candidate
    is left. *)
Lemma X12_witness :
  (7 = 7 -> col (castle 7 2 0) <> 6) /\ (7 = 0 -> col (castle 7 2 0) <> 2).
Proof.
  apply (X12_rook_move_ends_castling_on_its_side
           rooksGame 7 7 6 7 (plain 6 7) (mkPiece Rook White)
           (movePiece rooksGame 7 7 6 7 (plain 6 7)) 7 4 (castle 7 2 0)).
  - reflexivity.
  - reflexivity.
  - apply later_here.
  - vm_compute. auto.
Defined.

(** ** The click handler *)

(** X13. Once the game is over (checkmate or stalemate), clicks change
    nothing at all. *)
Theorem X13_game_over_is_final g l :
  gameOver g = true -> clicks g l = g.
Proof.
  intros H. unfold clicks. induction l as [|[r c] t IH]; simpl.
  - reflexivity.
  - unfold handleSquareClick at 2. rewrite H. assumption.
Qed.

Lemma X13_witness :
  clicks foolsMate [(6, 0); (5, 0); (1, 0); (2, 0)] = foolsMate.
Proof.
  apply (X13_game_over_is_final foolsMate [(6, 0); (5, 0); (1, 0); (2, 0)]).
  reflexivity.
Defined.

(** X14. While the game is on and a square is selected, a click commits a
    move and hands the turn to the other side exactly when [isValidMove]
    holds for the clicked square; otherwise the board and the turn stay
    as they are. *)
Theorem X14_click_commits_iff_valid g r c sel :
  gameOver g = false ->
  selectedSquare g = Some sel ->
  let g' := handleSquareClick g r c in
  (isValidMove g r c = true ->
   currentTurn g' = opposite (currentTurn g) /\
   selectedSquare g' = None /\
   exists mv, In mv (validMoves g) /\ row mv = r /\ col mv = c /\
              board g' = board (movePiece g (fst sel) (snd sel) r c mv)) /\
  (isValidMove g r c = false ->
   currentTurn g' = currentTurn g /\ board g' = board g /\
   hasMoved g' = hasMoved g /\ capturedPieces g' = capturedPieces g).
Proof.
  intros Hover Hsel g'. subst g'. unfold handleSquareClick, isValidMove.
  rewrite Hover, Hsel. destruct sel as [selRow selCol]. simpl fst. simpl snd.
  destruct (find (targets r c) (validMoves g)) as [mv|] eqn:Hfind.
  - split.
    + intros _.
      set (g1 := clearSelection (movePiece g selRow selCol r c mv)).
      unfold switchTurn.
      destruct (checkGameStatus_frame (toggleTurn g1))
        as (Eb & Et & Es & _).
      rewrite Eb, Et, Es. subst g1. simpl.
      destruct (movePiece_frame g selRow selCol r c mv) as (Et1 & _).
      rewrite Et1.
      split; [destruct (currentTurn g); reflexivity|].
      split; [reflexivity|].
      apply find_some in Hfind. destruct Hfind as [Hin Ht].
      unfold targets in Ht. exists mv. repeat split; auto; lia.
    + intros H. exfalso. apply find_some in Hfind.
      rewrite existsb_false_iff in H. destruct Hfind as [Hin Ht].
      rewrite (H mv Hin) in Ht. discriminate.
  - split.
    + intros H. exfalso. apply existsb_exists in H.
      destruct H as [m [Hin Ht]].
      apply (find_none _ _ Hfind) in Hin. congruence.
    + intros _.
      destruct (isPieceOwnedByCurrentPlayer g r c); simpl; auto.
Qed.

(** The white e-pawn is selected in the initial position; e4 is a valid
    move and e5 is not. *)
Lemma X14_witness :
  let g := handleSquareClick newGame 6 4 in
  (isValidMove g 4 4 = true ->
   currentTurn (handleSquareClick g 4 4) = opposite (currentTurn g) /\
   selectedSquare (handleSquareClick g 4 4) = None /\
   exists mv, In mv (validMoves g) /\ row mv = 4 /\ col mv = 4 /\
              board (handleSquareClick g 4 4)
              = board (movePiece g (fst (6, 4)) (snd (6, 4)) 4 4 mv)) /\
  (isValidMove g 4 4 = false ->
   currentTurn (handleSquareClick g 4 4) = currentTurn g /\
   board (handleSquareClick g 4 4) = board g /\
   hasMoved (handleSquareClick g 4 4) = hasMoved g /\
   capturedPieces (handleSquareClick g 4 4) = capturedPieces g).
Proof.
  intros g.
  apply (X14_click_commits_iff_valid g 4 4 (6, 4)); reflexivity.
Defined.

(** ** Reachable games *)

Lemma reachable_foolsMate : reachable foolsMate.
Proof. apply reachable_clicks; [apply reach_new | reflexivity]. Qed.

(** X15. In every reachable state the stored valid moves belong to the
    selection: with a square selected, the square is on the board, holds a
    piece of the side to move, and [validMoves] is what [getValidMoves]
    answers for it on the current board; with nothing selected the list
    is empty.  So the click handler only ever commits a legal move of a
    piece of the side to move. *)
Theorem X15_selection_is_current g :
  reachable g ->
  match selectedSquare g with
  | Some (r, c) =>
      isInBounds r c = true /\
      isPieceOwnedByCurrentPlayer g r c = true /\
      validMoves g = getValidMoves g r c
  | None => validMoves g = []
  end.
Proof.
  induction 1 as [|g r c Hreach IH Hin|g Hreach IH].
  - reflexivity.
  - unfold handleSquareClick.
    destruct (gameOver g); [assumption|].
    destruct (selectedSquare g) as [[selRow selCol]|] eqn:Hs.
    + destruct (find (targets r c) (validMoves g)) as [move|].
      * unfold switchTurn.
        destruct (checkGameStatus_frame
                    (toggleTurn
                       (clearSelection (movePiece g selRow selCol r c move))))
          as (_ & _ & Es & Ev & _).
        rewrite Es, Ev. reflexivity.
      * destruct (isPieceOwnedByCurrentPlayer g r c) eqn:Hown; simpl; auto.
    + destruct (isPieceOwnedByCurrentPlayer g r c) eqn:Hown; simpl; auto.
      rewrite Hs. assumption.
  - reflexivity.
Qed.

Lemma X15_witness :
  match selectedSquare (handleSquareClick pawnOnE2 7 4) with
  | Some (r, c) =>
      isInBounds r c = true /\
      isPieceOwnedByCurrentPlayer (handleSquareClick pawnOnE2 7 4) r c
      = true /\
      validMoves (handleSquareClick pawnOnE2 7 4)
      = getValidMoves (handleSquareClick pawnOnE2 7 4) r c
  | None => validMoves (handleSquareClick pawnOnE2 7 4) = []
  end.
Proof.
  apply (X15_selection_is_current (handleSquareClick pawnOnE2 7 4)).
  apply reach_click; [exact reachable_pawnOnE2 | reflexivity].
Defined.

(** X16. In every reachable state the king of the side that is not to
    move (the side that moved last) is not attacked. *)
Theorem X16_side_not_to_move_is_safe g :
  reachable g ->
  isKingInCheck (board g) (negb (turnIsWhite g)) = false.
Proof.
  intros H. apply reachable_Inv in H. apply H.
Qed.

Lemma X16_witness :
  isKingInCheck (board foolsMate) (negb (turnIsWhite foolsMate)) = false.
Proof.
  apply (X16_side_not_to_move_is_safe foolsMate).
  exact reachable_foolsMate.
Defined.

Lemma legal_move_no_king g r c mv :
  reachable g ->
  isPieceOwnedByCurrentPlayer g r c = true ->
  In mv (getValidMoves g r c) ->
  hasKing (cell (board g) (row mv) (col mv)) = false.
Proof.
  intros Hreach Hown Hmv. apply reachable_Inv in Hreach.
  destruct Hreach as (_ & Hw & Hb & Hsafe & _).
  apply owned_spec in Hown. destruct Hown as [p [Hp Hpw]].
  apply (getValidMoves_In g r c p mv Hp) in Hmv. destruct Hmv as [Hcand _].
  rewrite <- Hpw in Hsafe.
  apply candidate_no_king with (hm := hasMoved g) (r := r) (c := c) (p := p);
    auto.
  destruct (isUpper p); assumption.
Qed.

(** X17. In every reachable state no legal move of a piece of the side to
    move lands on a king: the engine never offers the capture of a
    king. *)
Theorem X17_no_legal_move_takes_a_king g r c mv :
  reachable g ->
  isPieceOwnedByCurrentPlayer g r c = true ->
  In mv (getValidMoves g r c) ->
  hasKing (cell (board g) (row mv) (col mv)) = false.
Proof. exact (legal_move_no_king g r c mv). Qed.

Lemma X17_witness :
  hasKing (cell (board afterE4D5) (row (plain 3 3)) (col (plain 3 3)))
  = false.
Proof.
  apply (X17_no_legal_move_takes_a_king afterE4D5 4 4 (plain 3 3)).
  - exact reachable_afterE4D5.
  - reflexivity.
  - vm_compute. auto 10.
Defined.

(** *** A king that has not moved is at home *)

Lemma movePiece_covers g r c p mv :
  wfBoard (board g) ->
  cell (board g) r c = Some p ->
  In mv (candidateMoves (board g) (hasMoved g) r c) ->
  covers (isUpper p)
         (simulateMove (board g) r c (row mv) (col mv) p)
         (board (movePiece g r c (row mv) (col mv) mv)).
Proof.
  intros Hwf Hp Hcand.
  rewrite (board_movePiece g r c (row mv) (col mv) mv p Hp).
  destruct (candidate_dest _ _ _ _ _ _ Hp Hcand) as [Ht _].
  assert (Hf : isInBounds r c = true) by (eapply cell_Some_inb; eauto).
  destruct (candidateMoves_cases _ _ _ _ _ _ Hp Hcand) as [Hok|[Hpk Hc]].
  - rewrite (okDest_not_castling _ _ _ Hok).
    apply relocateBoard_covers; auto.
  - destruct (castling_rook _ _ _ _ _ _ Hc) as (_ & -> & _).
    eapply castleBoard_covers; eauto.
Qed.

Lemma trackMoved_kingMoved_false hm p fc w :
  kingMovedOf (trackMoved hm p fc) w = false ->
  kingMovedOf hm w = false /\ isKingOf w (Some p) = false.
Proof.
  unfold trackMoved, kingMovedOf, isKingOf, toLowerCase, isUpper, isLower.
  destruct (kind p), (color p), w; simpl; auto; discriminate.
Qed.

Lemma hasKing_isKingOf w sq : isKingOf w sq = true -> hasKing sq = true.
Proof.
  intros H. destruct (hasKing sq) eqn:E; [reflexivity|].
  rewrite (isKingOf_hasKing w sq E) in H. discriminate.
Qed.

Lemma commit_king_home g r c p mv w :
  Inv g ->
  cell (board g) r c = Some p ->
  isUpper p = turnIsWhite g ->
  In mv (getValidMoves g r c) ->
  (kingMovedOf (hasMoved g) w = false ->
   isKingOf w (cell (board g) (baseRowOf w) 4) = true) ->
  kingMovedOf (hasMoved (movePiece g r c (row mv) (col mv) mv)) w = false ->
  isKingOf w (cell (board (movePiece g r c (row mv) (col mv) mv))
                   (baseRowOf w) 4) = true.
Proof.
  intros (Hwf & Hw & Hb & Hsafe & _) Hp Hpw Hmv IH Hflag.
  apply (getValidMoves_In g r c p mv Hp) in Hmv. destruct Hmv as [Hcand _].
  rewrite (hasMoved_movePiece g r c (row mv) (col mv) mv p Hp) in Hflag.
  apply trackMoved_kingMoved_false in Hflag. destruct Hflag as [Hold Hpk].
  specialize (IH Hold).
  rewrite <- (covers_isKingOf (isUpper p) _ _ w _ _
                (movePiece_covers g r c p mv Hwf Hp Hcand)).
  destruct (candidate_dest _ _ _ _ _ _ Hp Hcand) as [Ht _].
  assert (Hf : isInBounds r c = true) by (eapply cell_Some_inb; eauto).
  rewrite cell_simulateMove by assumption.
  destruct ((r =? baseRowOf w) && (c =? 4)) eqn:E1.
  { apply and_eqb_true in E1. destruct E1; subst. rewrite Hp in IH.
    congruence. }
  destruct ((row mv =? baseRowOf w) && (col mv =? 4)) eqn:E2;
    [|assumption].
  apply and_eqb_true in E2. destruct E2 as [E2 E3].
  rewrite <- Hpw in Hsafe.
  assert (Hother : oneKing (board g) (negb (isUpper p)))
    by (destruct (isUpper p); assumption).
  pose proof (candidate_no_king _ _ _ _ _ _ Hother Hsafe Hp Hcand) as Hnk.
  rewrite E2, E3 in Hnk. apply hasKing_isKingOf in IH. congruence.
Qed.

Lemma unmoved_king_home g w :
  reachable g ->
  kingMovedOf (hasMoved g) w = false ->
  cell (board g) (baseRowOf w) 4 = Some (mkPiece King (colorOf w)).
Proof.
  intros Hreach Hflag.
  assert (H : isKingOf w (cell (board g) (baseRowOf w) 4) = true).
  { revert Hflag. induction Hreach as [|g r c Hreach IH Hin|g Hreach IH].
    - intros _. destruct w; reflexivity.
    - pose proof (reachable_Inv g Hreach) as HI.
      unfold handleSquareClick.
      destruct (gameOver g); [assumption|].
      destruct (selectedSquare g) as [[selRow selCol]|] eqn:Hs.
      + destruct (find (targets r c) (validMoves g)) as [move|] eqn:Hfind.
        * unfold switchTurn.
          destruct (checkGameStatus_frame
                      (toggleTurn
                         (clearSelection
                            (movePiece g selRow selCol r c move))))
            as (Eb & _ & _ & _ & _ & Eh).
          rewrite Eb, Eh. simpl.
          pose proof HI as (_ & _ & _ & _ & Hsel).
          unfold selectionOk in Hsel. rewrite Hs in Hsel.
          destruct Hsel as [Hown Hvalid].
          apply find_some in Hfind. destruct Hfind as [Hmv Ht].
          unfold targets in Ht.
          assert (row move = r /\ col move = c) as [<- <-] by lia.
          rewrite Hvalid in Hmv.
          apply owned_spec in Hown. destruct Hown as [p [Hp Hpw]].
          apply commit_king_home with (p := p); auto.
        * destruct (isPieceOwnedByCurrentPlayer g r c); assumption.
      + destruct (isPieceOwnedByCurrentPlayer g r c); assumption.
    - intros _. destruct w; reflexivity. }
  destruct (cell (board g) (baseRowOf w) 4) as [q|]; [|discriminate].
  f_equal. unfold isKingOf, toLowerCase, isUpper, isLower in H.
  destruct q as [k cq]. simpl in *.
  destruct k, cq, w; simpl in *; try discriminate; reflexivity.
Qed.

(** X18. In every reachable state a king whose has-moved flag is clear
    stands on its home square (row 7 for white, row 0 for black,
    column 4). *)
Theorem X18_unmoved_king_is_at_home g w :
  reachable g ->
  kingMovedOf (hasMoved g) w = false ->
  cell (board g) (baseRowOf w) 4 = Some (mkPiece King (colorOf w)).
Proof. exact (unmoved_king_home g w). Qed.

Lemma X18_witness :
  cell (board pawnOnE2) (baseRowOf true) 4
  = Some (mkPiece King (colorOf true)).
Proof.
  apply (X18_unmoved_king_is_at_home pawnOnE2 true).
  - exact reachable_pawnOnE2.
  - reflexivity.
Defined.

(** X19. In every reachable state a castling move starts from the king's
    home square and takes the king two columns along its base rank. *)
Theorem X19_castling_starts_at_home g r c p mv :
  reachable g ->
  cell (board g) r c = Some p ->
  In mv (getValidMoves g r c) ->
  isCastling mv = true ->
  r = baseRowOf (isUpper p) /\ c = 4 /\
  row mv = r /\ (col mv = c + 2 \/ col mv = c - 2).
Proof.
  intros Hreach Hp Hmv Hc.
  apply (getValidMoves_In g r c p mv Hp) in Hmv. destruct Hmv as [Hcand _].
  destruct (candidateMoves_cases _ _ _ _ _ _ Hp Hcand) as [Hok|[Hk Hcastle]].
  { rewrite (okDest_not_castling _ _ _ Hok) in Hc. discriminate. }
  apply getCastlingMoves_In in Hcastle.
  assert (Hflag : kingMovedOf (hasMoved g) (isUpper p) = false)
    by (destruct Hcastle as [[_ G]|[_ G]]; apply G).
  pose proof (unmoved_king_home g (isUpper p) Hreach Hflag)
    as Hhome.
  pose proof (reachable_Inv g Hreach) as (_ & Hw & Hb & _).
  assert (Hone : oneKing (board g) (isUpper p))
    by (destruct (isUpper p); assumption).
  destruct Hone as (kr & kc & _ & Huniq).
  assert (H1 : (r, c) = (kr, kc)).
  { apply Huniq. rewrite Hp. unfold isKingOf, toLowerCase. rewrite Hk.
    unfold isUpper, isLower. destruct (color p); reflexivity. }
  assert (H2 : (baseRowOf (isUpper p), 4) = (kr, kc)).
  { apply Huniq. rewrite Hhome. unfold isKingOf, toLowerCase, colorOf.
    simpl. destruct (isUpper p); reflexivity. }
  assert (E : (r, c) = (baseRowOf (isUpper p), 4)) by congruence.
  inversion E; subst r c.
  destruct Hcastle as [[-> _]|[-> _]]; simpl; repeat split; auto.
Qed.

Lemma X19_witness :
  7 = baseRowOf (isUpper (mkPiece King White)) /\ 4 = 4 /\
  row (castle 7 6 7) = 7 /\
  (col (castle 7 6 7) = 4 + 2 \/ col (castle 7 6 7) = 4 - 2).
Proof.
  apply (X19_castling_starts_at_home pawnOnE2 7 4 (mkPiece King White)
                                     (castle 7 6 7)).
  - exact reachable_pawnOnE2.
  - reflexivity.
  - vm_compute. auto 10.
  - reflexivity.
Defined.

(** ** Pieces are conserved *)

Lemma filter_count_update A (f g : A -> bool) x l :
  NoDup l -> In x l ->
  (forall y, y <> x -> f y = g y) ->
  (length (filter g l) + (if f x then 1 else 0)
   = length (filter f l) + (if g x then 1 else 0))%nat.
Proof.
  induction 1 as [|a t Ha Hnd IH]; intros Hx Hext; [contradiction|].
  simpl. destruct Hx as [->|Hx].
  - assert (E : filter f t = filter g t).
    { apply filter_ext_in. intros y Hy. apply Hext. congruence. }
    rewrite E. destruct (f x), (g x); simpl; lia.
  - assert (Hax : a <> x) by congruence.
    rewrite (Hext a Hax). specialize (IH Hx Hext).
    destruct (g a); simpl; lia.
Qed.

Lemma countOccupied_setCell b r c v :
  wfBoard b -> isInBounds r c = true ->
  (countOccupied (setCell b r c v) + occ (cell b r c)
   = countOccupied b + occ v)%nat.
Proof.
  intros Hwf Hin. unfold countOccupied.
  pose proof (filter_count_update _
                (fun sq => negb (isEmpty b (fst sq) (snd sq)))
                (fun sq => negb (isEmpty (setCell b r c v) (fst sq) (snd sq)))
                (r, c) allSquares NoDup_allSquares) as H.
  cbv beta in H. cbn [fst snd] in H.
  specialize (H (proj2 (allSquares_In r c) Hin)).
  assert (Hext : forall y : Z * Z,
             y <> (r, c) ->
             negb (isEmpty b (fst y) (snd y))
             = negb (isEmpty (setCell b r c v) (fst y) (snd y))).
  { intros [r' c'] N. cbn [fst snd]. unfold isEmpty.
    rewrite cell_setCell_other by (auto; congruence). reflexivity. }
  specialize (H Hext).
  assert (E1 : (if negb (isEmpty b r c) then 1 else 0)%nat
               = occ (cell b r c))
    by (unfold isEmpty, occ; destruct (cell b r c); reflexivity).
  assert (E2 : (if negb (isEmpty (setCell b r c v) r c) then 1 else 0)%nat
               = occ v)
    by (unfold isEmpty, occ; rewrite cell_setCell_same by assumption;
        destruct v; reflexivity).
  rewrite E1, E2 in H. exact H.
Qed.

Lemma countOccupied_simulateMove b fr fc tr tc p :
  wfBoard b -> cell b fr fc = Some p ->
  isInBounds tr tc = true -> (tr, tc) <> (fr, fc) ->
  (countOccupied (simulateMove b fr fc tr tc p) + occ (cell b tr tc)
   = countOccupied b)%nat.
Proof.
  intros Hwf Hp Ht Hne. unfold simulateMove.
  assert (Hf : isInBounds fr fc = true) by (eapply cell_Some_inb; eauto).
  pose proof (countOccupied_setCell b tr tc (Some p) Hwf Ht) as H1.
  pose proof (countOccupied_setCell (setCell b tr tc (Some p)) fr fc None
                (wfBoard_setCell _ _ _ _ Hwf) Hf) as H2.
  rewrite cell_setCell_other in H2 by assumption.
  rewrite Hp in H2. simpl in *. lia.
Qed.

Lemma countOccupied_movePiece g r c p mv :
  wfBoard (board g) ->
  cell (board g) r c = Some p ->
  In mv (candidateMoves (board g) (hasMoved g) r c) ->
  (countOccupied (board (movePiece g r c (row mv) (col mv) mv))
   + (if isCastling mv then 0 else occ (cell (board g) (row mv) (col mv)))
   = countOccupied (board g))%nat.
Proof.
  intros Hwf Hp Hcand.
  destruct (candidate_dest _ _ _ _ _ _ Hp Hcand) as [Ht Hne].
  assert (Hf : isInBounds r c = true) by (eapply cell_Some_inb; eauto).
  pose proof (countOccupied_simulateMove (board g) r c (row mv) (col mv) p
                Hwf Hp Ht Hne) as Hsim.
  assert (Hcs : forall r' c',
             cell (simulateMove (board g) r c (row mv) (col mv) p) r' c' =
             if (r =? r') && (c =? c') then None
             else if (row mv =? r') && (col mv =? c') then Some p
                  else cell (board g) r' c')
    by (intros; apply cell_simulateMove; assumption).
  assert (Eft : (r =? row mv) && (c =? col mv) = false).
  { destruct ((r =? row mv) && (c =? col mv)) eqn:E; [|reflexivity].
    apply and_eqb_true in E. destruct E; subst. congruence. }
  rewrite (board_movePiece g r c (row mv) (col mv) mv p Hp).
  destruct (candidateMoves_cases _ _ _ _ _ _ Hp Hcand) as [Hok|[Hk Hc]].
  - rewrite (okDest_not_castling _ _ _ Hok).
    unfold relocateBoard.
    fold (simulateMove (board g) r c (row mv) (col mv) p).
    destruct (toLowerCase p); try assumption.
    destruct (isUpper p && (row mv =? 0) || isLower p && (row mv =? 7));
      [|assumption].
    pose proof (countOccupied_setCell
                  (simulateMove (board g) r c (row mv) (col mv) p)
                  (row mv) (col mv)
                  (Some (mkPiece Queen (if isUpper p then White else Black)))
                  (wfBoard_simulateMove _ _ _ _ _ _ Hwf) Ht) as Hq.
    rewrite Hcs, Eft, !Z.eqb_refl in Hq. simpl in Hq. lia.
  - destruct (castling_rook _ _ _ _ _ _ Hc)
      as (Hrow & -> & rc & q & Hrc & Hside & Hq & Hqk & _).
    pose proof (baseRowOf_cases (isUpper p)) as Hbr.
    set (rt := if col mv =? 6 then 5 else 3).
    assert (Hcells : cell (board g) (row mv) (col mv) = None /\
                     cell (board g) (row mv) rt = None).
    { apply getCastlingMoves_In in Hc. subst rt.
      destruct Hc as [[-> G]|[-> G]]; simpl.
      - destruct G as (_ & _ & _ & H5 & H6 & _). auto.
      - destruct G as (_ & _ & _ & _ & H2 & H3 & _). auto. }
    destruct Hcells as [Hto Hrt].
    rewrite Hto in Hsim. simpl in Hsim.
    rewrite <- Hrow in Hq.
    assert (Hcols : (col mv = 6 /\ rc = 7 /\ rt = 5) \/
                    (col mv = 2 /\ rc = 0 /\ rt = 3)).
    { subst rt. destruct Hside as [[-> ->]|[-> ->]]; simpl; auto. }
    assert (Hr : isInBounds (row mv) rc = true)
      by (apply isInBounds_spec; lia).
    assert (Hrt' : isInBounds (row mv) rt = true)
      by (apply isInBounds_spec; lia).
    assert (Nfrom : forall x, cell (board g) (row mv) x <> Some p ->
                              (r =? row mv) && (c =? x) = false).
    { intros x N. destruct ((r =? row mv) && (c =? x)) eqn:E;
        [|reflexivity]. apply and_eqb_true in E. destruct E; subst.
      congruence. }
    assert (Hs_rc : cell (simulateMove (board g) r c (row mv) (col mv) p)
                         (row mv) rc = Some q).
    { rewrite Hcs. rewrite Nfrom.
      - replace (col mv =? rc) with false
          by (destruct Hcols as [(-> & -> & _)|(-> & -> & _)]; reflexivity).
        rewrite andb_false_r. assumption.
      - rewrite Hq. intros E. inversion E as [E']. rewrite E' in Hqk.
        congruence. }
    assert (Hs_rt : cell (simulateMove (board g) r c (row mv) (col mv) p)
                         (row mv) rt = None).
    { rewrite Hcs. rewrite Nfrom by congruence.
      replace (col mv =? rt) with false
        by (destruct Hcols as [(-> & _ & ->)|(-> & _ & ->)]; reflexivity).
      rewrite andb_false_r. assumption. }
    unfold castleBoard.
    fold (simulateMove (board g) r c (row mv) (col mv) p).
    rewrite Hrc. fold rt. rewrite Hs_rc.
    pose proof (countOccupied_setCell
                  (simulateMove (board g) r c (row mv) (col mv) p)
                  (row mv) rt (Some q)
                  (wfBoard_simulateMove _ _ _ _ _ _ Hwf) Hrt') as H3.
    pose proof (countOccupied_setCell
                  (setCell (simulateMove (board g) r c (row mv) (col mv) p)
                           (row mv) rt (Some q))
                  (row mv) rc None
                  (wfBoard_setCell _ _ _ _
                     (wfBoard_simulateMove _ _ _ _ _ _ Hwf)) Hr) as H4.
    rewrite cell_setCell_other in H4
      by (auto using wfBoard_simulateMove;
          destruct Hcols as [(_ & -> & ->)|(_ & -> & ->)]; congruence).
    rewrite Hs_rt in H3. rewrite Hs_rc in H4. simpl in *. lia.
Qed.

Lemma capturedPieces_movePiece g fr fc tr tc mv p :
  cell (board g) fr fc = Some p ->
  capturedPieces (movePiece g fr fc tr tc mv) =
  if isCastling mv then capturedPieces g
  else match cell (board g) tr tc with
       | Some q => pushCaptured (capturedPieces g) q
       | None => capturedPieces g
       end.
Proof.
  unfold movePiece. intros ->.
  destruct (isCastling mv); [reflexivity|].
  destruct (cell (board g) tr tc); reflexivity.
Qed.

Lemma totalPieces_movePiece g r c p mv :
  wfBoard (board g) ->
  cell (board g) r c = Some p ->
  In mv (candidateMoves (board g) (hasMoved g) r c) ->
  totalPieces (movePiece g r c (row mv) (col mv) mv) = totalPieces g.
Proof.
  intros Hwf Hp Hcand. unfold totalPieces.
  pose proof (countOccupied_movePiece g r c p mv Hwf Hp Hcand) as H.
  rewrite (capturedPieces_movePiece g r c (row mv) (col mv) mv p Hp).
  destruct (isCastling mv); [lia|].
  destruct (cell (board g) (row mv) (col mv)) as [q|]; simpl in H; [|lia].
  unfold pushCaptured. destruct (isUpper q); simpl;
    rewrite length_app; simpl; lia.
Qed.

(** What the commit branch of the click handler keeps of [movePiece]. *)
Lemma commit_frame g selRow selCol r c move :
  board (switchTurn (clearSelection (movePiece g selRow selCol r c move)))
  = board (movePiece g selRow selCol r c move) /\
  capturedPieces
    (switchTurn (clearSelection (movePiece g selRow selCol r c move)))
  = capturedPieces (movePiece g selRow selCol r c move).
Proof.
  unfold switchTurn.
  destruct (checkGameStatus_frame
              (toggleTurn
                 (clearSelection (movePiece g selRow selCol r c move))))
    as (Eb & _ & _ & _ & Ec & _).
  rewrite Eb, Ec. split; reflexivity.
Qed.

(** A property every click keeps, given what the committed move is. *)
Lemma reachable_ind_commit (P : ChessGame -> Prop) :
  P newGame ->
  (forall g g', P g -> board g' = board g ->
                capturedPieces g' = capturedPieces g -> P g') ->
  (forall g r c p mv,
      reachable g -> P g ->
      cell (board g) r c = Some p ->
      isUpper p = turnIsWhite g ->
      In mv (getValidMoves g r c) ->
      P (movePiece g r c (row mv) (col mv) mv)) ->
  forall g, reachable g -> P g.
Proof.
  intros Hnew Hframe Hmove g Hreach.
  induction Hreach as [|g r c Hreach IH Hin|g Hreach IH]; auto.
  pose proof (reachable_Inv g Hreach) as (_ & _ & _ & _ & Hsel).
  unfold handleSquareClick.
  destruct (gameOver g); [assumption|].
  destruct (selectedSquare g) as [[selRow selCol]|] eqn:Hs.
  - destruct (find (targets r c) (validMoves g)) as [move|] eqn:Hfind.
    + destruct (commit_frame g selRow selCol r c move) as [Eb Ec].
      eapply Hframe; [|exact Eb|exact Ec].
      unfold selectionOk in Hsel. rewrite Hs in Hsel.
      destruct Hsel as [Hown Hvalid].
      apply find_some in Hfind. destruct Hfind as [Hmv Ht].
      unfold targets in Ht.
      assert (row move = r /\ col move = c) as [<- <-] by lia.
      rewrite Hvalid in Hmv.
      apply owned_spec in Hown. destruct Hown as [p [Hp Hpw]].
      eapply Hmove; eauto.
    + destruct (isPieceOwnedByCurrentPlayer g r c);
        eapply Hframe; eauto.
  - destruct (isPieceOwnedByCurrentPlayer g r c);
      [eapply Hframe; eauto | assumption].
Qed.

(** X20. In every reachable state the pieces on the board and the pieces
    on the two capture lists are 32 together: a capture moves one piece
    from the board to a list, and promotion and castling neither add nor
    lose a piece. *)
Theorem X20_thirty_two_pieces g :
  reachable g -> totalPieces g = 32%nat.
Proof.
  revert g.
  apply (reachable_ind_commit (fun g => totalPieces g = 32%nat)).
  - reflexivity.
  - intros g0 g' H Eb Ec. unfold totalPieces in *. rewrite Eb, Ec.
    assumption.
  - intros g0 r c p mv Hreach H Hp _ Hmv.
    apply (getValidMoves_In g0 r c p mv Hp) in Hmv.
    destruct Hmv as [Hcand _].
    rewrite (totalPieces_movePiece g0 r c p mv); auto using reachable_wf.
Qed.

Lemma X20_witness : totalPieces pawnOnE2 = 32%nat.
Proof.
  apply (X20_thirty_two_pieces pawnOnE2). exact reachable_pawnOnE2.
Defined.

Lemma capturedOk_push cp q :
  capturedOk White (white cp) -> capturedOk Black (black cp) ->
  kind q <> King ->
  capturedOk White (white (pushCaptured cp q)) /\
  capturedOk Black (black (pushCaptured cp q)).
Proof.
  unfold capturedOk, pushCaptured, isUpper. intros Hw Hb Hk.
  destruct (color q) eqn:Ec; simpl; split; auto;
    apply Forall_app; split; auto.
Qed.

(** X21. In every reachable state the white capture list holds white
    pieces only, the black list black pieces only, and neither holds a
    king. *)
Theorem X21_capture_lists_by_colour g :
  reachable g ->
  capturedOk White (white (capturedPieces g)) /\
  capturedOk Black (black (capturedPieces g)).
Proof.
  revert g.
  apply (reachable_ind_commit
           (fun g => capturedOk White (white (capturedPieces g)) /\
                     capturedOk Black (black (capturedPieces g)))).
  - split; constructor.
  - intros g0 g' H _ Ec. rewrite Ec. assumption.
  - intros g0 r c p mv Hreach [Hw Hb] Hp Hpw Hmv.
    rewrite (capturedPieces_movePiece g0 r c (row mv) (col mv) mv p Hp).
    destruct (isCastling mv); [split; assumption|].
    destruct (cell (board g0) (row mv) (col mv)) as [q|] eqn:Hq;
      [|split; assumption].
    apply capturedOk_push; auto.
    assert (Hown : isPieceOwnedByCurrentPlayer g0 r c = true)
      by (apply owned_spec; eauto).
    pose proof (legal_move_no_king g0 r c mv Hreach Hown Hmv)
      as Hnk.
    rewrite Hq in Hnk. simpl in Hnk. intros E. rewrite E in Hnk.
    discriminate.
Qed.

Lemma X21_witness :
  capturedOk White (white (capturedPieces pawnOnE2)) /\
  capturedOk Black (black (capturedPieces pawnOnE2)).
Proof.
  apply (X21_capture_lists_by_colour pawnOnE2). exact reachable_pawnOnE2.
Defined.

(** ** More on the generators *)

(** X22. The queen's moves are the rook's moves followed by the bishop's
    moves from the same square. *)
Theorem X22_queen_is_rook_then_bishop b r c :
  getQueenMoves b r c = getRookMoves b r c ++ getBishopMoves b r c.
Proof.
  unfold getQueenMoves, getRookMoves, getBishopMoves, getLinearMoves.
  destruct (cell b r c); [|reflexivity].
  change queenDirections with (rookDirections ++ bishopDirections).
  apply flat_map_app.
Qed.

(** X23. A knight move always changes the colour of the square, stays on
    the board and never lands on a piece of the knight's colour. *)
Theorem X23_knight_changes_square_colour b r c p m :
  cell b r c = Some p ->
  In m (getKnightMoves b r c) ->
  isLightSquare (row m) (col m) = negb (isLightSquare r c) /\
  isInBounds (row m) (col m) = true /\
  (forall q, cell b (row m) (col m) = Some q -> color q <> color p).
Proof.
  intros Hp H. split.
  - unfold getKnightMoves, offsetMoves in H. rewrite Hp in H.
    apply in_flat_map in H. destruct H as [[dr dc] [Ho H]].
    cbn [fst snd] in H.
    destruct (isInBounds (r + dr) (c + dc)
              && (isEmpty b (r + dr) (c + dc)
                  || isOpponentPiece b (r + dr) (c + dc) (isUpper p)));
      [|contradiction].
    destruct H as [<-|[]]. unfold isLightSquare. simpl row. simpl col.
    simpl in Ho.
    repeat (destruct Ho as [Ho|Ho];
            [inversion Ho; subst;
             destruct ((r + c) mod 2 =? 0) eqn:E;
             [apply Z.eqb_eq in E; apply Z.eqb_neq
             |apply Z.eqb_neq in E; apply Z.eqb_eq];
             Z.to_euclidean_division_equations; lia|]).
    contradiction.
  - apply (offsetMoves_okDest b r c knightOffsets p m Hp) in H.
    destruct H as (_ & Hin & Hd). split; [assumption|].
    intros q Hq. destruct Hd as [Hd|Hd].
    + apply isEmpty_true in Hd. congruence.
    + apply isOpponentPiece_iff in Hd. destruct Hd as [q' [Hq' Hc]].
      congruence.
Qed.

(** The knight on f3 of [pawnOnE2] goes to e5. *)
Lemma X23_witness :
  isLightSquare (row (plain 3 4)) (col (plain 3 4))
  = negb (isLightSquare 5 5) /\
  isInBounds (row (plain 3 4)) (col (plain 3 4)) = true /\
  (forall q, cell (board pawnOnE2) (row (plain 3 4)) (col (plain 3 4))
             = Some q -> color q <> color (mkPiece Knight White)).
Proof.
  apply (X23_knight_changes_square_colour (board pawnOnE2) 5 5
           (mkPiece Knight White) (plain 3 4)).
  - reflexivity.
  - vm_compute. auto 10.
Defined.

(** X24. A pawn only moves forward: every move of [getPawnMoves] goes one
    row in the pawn's direction, straight onto an empty square or
    diagonally onto a piece of the other colour, or two rows straight from
    the pawn's start row over two empty squares. *)
Theorem X24_pawn_moves_forward b r c p m :
  cell b r c = Some p ->
  In m (getPawnMoves b r c) ->
  (row m = r + pawnDirection p /\ col m = c /\
   cell b (row m) (col m) = None) \/
  (row m = r + 2 * pawnDirection p /\ col m = c /\
   r = (if isUpper p then 6 else 1) /\
   cell b (r + pawnDirection p) c = None /\
   cell b (row m) (col m) = None) \/
  (row m = r + pawnDirection p /\ (col m = c - 1 \/ col m = c + 1) /\
   exists q, cell b (row m) (col m) = Some q /\ color q <> color p).
Proof.
  intros Hp Hm. unfold getPawnMoves in Hm. rewrite Hp in Hm.
  fold (pawnDirection p) in Hm.
  set (dir := pawnDirection p) in *.
  set (start := if isUpper p then 6 else 1) in *.
  apply in_app_or in Hm. destruct Hm as [Hm|Hm].
  - destruct (isInBounds (r + dir) c); [|contradiction].
    destruct (isEmpty b (r + dir) c) eqn:He1; [|contradiction].
    apply isEmpty_true in He1.
    destruct Hm as [<-|Hm]; [left; simpl; auto|].
    destruct (r =? start) eqn:Es; [|contradiction].
    destruct (isEmpty b (r + 2 * dir) c) eqn:He2; [|contradiction].
    apply isEmpty_true in He2. apply Z.eqb_eq in Es.
    destruct Hm as [<-|[]]. right. left. simpl. auto.
  - right. right. apply in_flat_map in Hm. destruct Hm as [o [Ho Hm]].
    destruct (isInBounds (r + dir) (c + o)); [|contradiction].
    destruct (isEmpty b (r + dir) (c + o)); [contradiction|].
    destruct (isOpponentPiece b (r + dir) (c + o) (isUpper p)) eqn:Eo;
      [|contradiction].
    destruct Hm as [<-|[]]. simpl row. simpl col.
    split; [reflexivity|]. split.
    + simpl in Ho. destruct Ho as [<-|[<-|[]]]; lia.
    + apply isOpponentPiece_iff. assumption.
Qed.

(** The white pawn on e4 of [afterE4D5] takes on d5. *)
Lemma X24_witness :
  (row (plain 3 3) = 4 + pawnDirection (mkPiece Pawn White) /\
   col (plain 3 3) = 4 /\
   cell (board afterE4D5) (row (plain 3 3)) (col (plain 3 3)) = None) \/
  (row (plain 3 3) = 4 + 2 * pawnDirection (mkPiece Pawn White) /\
   col (plain 3 3) = 4 /\
   4 = (if isUpper (mkPiece Pawn White) then 6 else 1) /\
   cell (board afterE4D5) (4 + pawnDirection (mkPiece Pawn White)) 4
   = None /\
   cell (board afterE4D5) (row (plain 3 3)) (col (plain 3 3)) = None) \/
  (row (plain 3 3) = 4 + pawnDirection (mkPiece Pawn White) /\
   (col (plain 3 3) = 4 - 1 \/ col (plain 3 3) = 4 + 1) /\
   exists q,
     cell (board afterE4D5) (row (plain 3 3)) (col (plain 3 3)) = Some q /\
     color q <> color (mkPiece Pawn White)).
Proof.
  apply (X24_pawn_moves_forward (board afterE4D5) 4 4
           (mkPiece Pawn White) (plain 3 3)).
  - reflexivity.
  - vm_compute. auto 10.
Defined.

(** ** The status shown *)

Lemma hasAnyValidMoves_ext g g' :
  board g' = board g -> currentTurn g' = currentTurn g ->
  hasMoved g' = hasMoved g ->
  hasAnyValidMoves g' = hasAnyValidMoves g.
Proof.
  intros Eb Et Eh.
  unfold hasAnyValidMoves, isPieceOwnedByCurrentPlayer, getValidMoves.
  rewrite Eb, Et, Eh. reflexivity.
Qed.

Lemma positionStatus_ext g g' :
  board g' = board g -> currentTurn g' = currentTurn g ->
  hasMoved g' = hasMoved g ->
  positionStatus g' = positionStatus g.
Proof.
  intros Eb Et Eh. unfold positionStatus, turnIsWhite.
  rewrite (hasAnyValidMoves_ext g g' Eb Et Eh), Eb, Et. reflexivity.
Qed.

Lemma checkGameStatus_status g :
  gameStatus (checkGameStatus g) = positionStatus (checkGameStatus g) /\
  (gameOver g = false ->
   gameOver (checkGameStatus g) = negb (hasAnyValidMoves (checkGameStatus g))).
Proof.
  destruct (checkGameStatus_frame g) as (Eb & Et & _ & _ & _ & Eh).
  rewrite (positionStatus_ext g _ Eb Et Eh).
  rewrite (hasAnyValidMoves_ext g _ Eb Et Eh).
  unfold checkGameStatus, positionStatus, turnIsWhite.
  assert (Hopp : (if Color_eqb (currentTurn g) White then Black else White)
                 = opposite (currentTurn g))
    by (destruct (currentTurn g); reflexivity).
  rewrite Hopp.
  destruct (hasAnyValidMoves g),
    (isKingInCheck (board g) (Color_eqb (currentTurn g) White));
    simpl; auto.
Qed.

(** X25. In every reachable state the status text is the one that fits
    the position as it stands (checkmate, stalemate, check or none), and
    the game is over exactly when the side to move has no legal move. *)
Theorem X25_status_matches_position g :
  reachable g ->
  gameStatus g = positionStatus g /\
  gameOver g = negb (hasAnyValidMoves g).
Proof.
  induction 1 as [|g r c Hreach IH Hin|g Hreach IH].
  - split; reflexivity.
  - destruct IH as [IHs IHo]. unfold handleSquareClick.
    destruct (gameOver g) eqn:Hover;
      [rewrite <- Hover in IHo; split; assumption|].
    assert (Hsame : forall g', board g' = board g ->
                      currentTurn g' = currentTurn g ->
                      hasMoved g' = hasMoved g ->
                      gameStatus g' = gameStatus g ->
                      gameOver g' = gameOver g ->
                      gameStatus g' = positionStatus g' /\
                      gameOver g' = negb (hasAnyValidMoves g')).
    { intros g' Eb Et Eh Es Eo.
      rewrite (positionStatus_ext g g' Eb Et Eh).
      rewrite (hasAnyValidMoves_ext g g' Eb Et Eh).
      rewrite Es, Eo, Hover. split; assumption. }
    destruct (selectedSquare g) as [[selRow selCol]|].
    + destruct (find (targets r c) (validMoves g)) as [move|].
      * unfold switchTurn.
        set (g1 := toggleTurn
                     (clearSelection (movePiece g selRow selCol r c move))).
        destruct (checkGameStatus_status g1) as [Hs Ho].
        split; [assumption|]. apply Ho. subst g1. simpl.
        destruct (movePiece_frame g selRow selCol r c move)
          as (_ & _ & _ & Eo & _).
        rewrite Eo. assumption.
      * destruct (isPieceOwnedByCurrentPlayer g r c);
          apply Hsame; reflexivity.
    + destruct (isPieceOwnedByCurrentPlayer g r c);
        [apply Hsame; reflexivity|].
      rewrite Hover. split; assumption.
  - split; reflexivity.
Qed.

(** The fool's mate: game over, checkmate, Black wins. *)
Lemma X25_witness :
  gameStatus foolsMate = positionStatus foolsMate /\
  gameOver foolsMate = negb (hasAnyValidMoves foolsMate).
Proof.
  apply (X25_status_matches_position foolsMate).
  exact reachable_foolsMate.
Defined.

(** X26. In a reachable game that is not over, a click on the square that
    is already selected changes nothing: no move lands on its own origin,
    and the selection is made again with the same moves. *)
Theorem X26_click_on_selection_is_idle g r c :
  reachable g ->
  gameOver g = false ->
  selectedSquare g = Some (r, c) ->
  handleSquareClick g r c = g.
Proof.
  intros Hreach Hover Hs.
  pose proof (reachable_Inv g Hreach) as (_ & _ & _ & _ & Hsel).
  unfold selectionOk in Hsel. rewrite Hs in Hsel.
  destruct Hsel as [Hown Hvalid].
  unfold handleSquareClick. rewrite Hover, Hs.
  destruct (find (targets r c) (validMoves g)) as [move|] eqn:Hfind.
  - exfalso. apply find_some in Hfind. destruct Hfind as [Hin Ht].
    unfold targets in Ht. rewrite Hvalid in Hin.
    apply owned_spec in Hown. destruct Hown as [p [Hp _]].
    apply (getValidMoves_In g r c p move Hp) in Hin.
    destruct Hin as [Hcand _].
    destruct (candidate_dest _ _ _ _ _ _ Hp Hcand) as [_ Hne].
    apply Hne. f_equal; lia.
  - rewrite Hown. unfold selectSquare. rewrite <- Hvalid, <- Hs.
    destruct g; reflexivity.
Qed.

Lemma X26_witness :
  handleSquareClick (handleSquareClick pawnOnE2 7 4) 7 4
  = handleSquareClick pawnOnE2 7 4.
Proof.
  apply (X26_click_on_selection_is_idle (handleSquareClick pawnOnE2 7 4)
                                        7 4).
  - apply reach_click; [exact reachable_pawnOnE2 | reflexivity].
  - reflexivity.
  - reflexivity.
Defined.

(** ** Queries leave the board alone, and the ray loop ends *)

(** X27. [wouldBeInCheck] undoes its simulation exactly: after the two
    writes of the move and the two writes that take it back, the board is
    the board the query started with. *)
Theorem X27_wouldBeInCheck_restores_board b fromRow fromCol toRow toCol piece :
  wfBoard b ->
  cell b fromRow fromCol = Some piece ->
  undoMove (simulateMove b fromRow fromCol toRow toCol piece)
           fromRow fromCol toRow toCol piece (cell b toRow toCol) = b.
Proof.
  exact (undoMove_simulateMove b fromRow fromCol toRow toCol piece).
Qed.

Lemma X27_witness :
  undoMove (simulateMove (board afterE4D5) 4 4 3 3 (mkPiece Pawn White))
           4 4 3 3 (mkPiece Pawn White) (cell (board afterE4D5) 3 3)
  = board afterE4D5.
Proof.
  apply (X27_wouldBeInCheck_restores_board (board afterE4D5) 4 4 3 3
           (mkPiece Pawn White)).
  - apply reachable_wf. exact reachable_afterE4D5.
  - reflexivity.
Defined.

(** X28. The [while] loop of [getLinearMoves] ends: from a square of the
    board, along any of the eight directions, it has left the board or
    met a piece within eight iterations, so a larger bound on the number
    of iterations gives the same moves. *)
Theorem X28_ray_loop_terminates m b w r c dr dc :
  isInBounds r c = true ->
  In (dr, dc) queenDirections ->
  (8 <= m)%nat ->
  ray m b w (r + dr) (c + dc) dr dc = ray 8 b w (r + dr) (c + dc) dr dc.
Proof.
  exact (ray_fuel_enough m b w r c dr dc).
Qed.

Lemma X28_witness :
  ray 20 INITIAL_BOARD true (7 + 0) (0 + 1) 0 1
  = ray 8 INITIAL_BOARD true (7 + 0) (0 + 1) 0 1.
Proof.
  apply (X28_ray_loop_terminates 20 INITIAL_BOARD true 7 0 0 1).
  - reflexivity.
  - simpl. tauto.
  - lia.
Defined.
